(** * Notification and quota proxies of the glance image registry

    A shallow embedding of [glance/notifier.py] (the notifying proxies around
    image and task repositories and entities) and of the quota scenarios
    exercised by [glance/tests/unit/test_quota.py].

    Python objects that the proxies only hold a reference to (the wrapped
    repository, the wrapped image or task, the notification sink) are modelled
    by an explicit world: the wrapped entity's current state and a
    chronological log of what the proxy did to its collaborators.  The sink
    records what it is handed and does not raise; the translation function
    [_] leaves the message templates as they are written; [str(e)] and
    [unicode(e)] of an exception are the same text. *)

From stdpp Require Import base strings list gmap pretty.
From Stdlib Require Import ZArith Lia.

#[local] Set Warnings "-register-all".

(** ** Python values carried in notification payloads *)

Inductive pyval : Type :=
  | PNone
  | PBool (b : bool)
  | PInt (n : Z)
  | PStr (s : string)
  | PList (l : list pyval)
  | PDict (d : list (string * pyval)).

(** A dict literal keeps one entry per key; [d[k]] and [d[k] = v]. *)
Definition pydict : Type := list (string * pyval).

Fixpoint dict_get (k : string) (d : pydict) : option pyval :=
  match d with
  | [] => None
  | (k', v) :: d' => if decide (k = k') then Some v else dict_get k d'
  end.

Fixpoint dict_set (k : string) (v : pyval) (d : pydict) : pydict :=
  match d with
  | [] => [(k, v)]
  | (k', v') :: d' =>
      if decide (k = k') then (k, v) :: d' else (k', v') :: dict_set k v d'
  end.

(** [payload[k]] on an arbitrary payload: only a mapping has keys. *)
Definition getitem (k : string) (p : pyval) : option pyval :=
  match p with
  | PDict d => dict_get k d
  | _ => None
  end.

Definition is_mapping (p : pyval) : bool :=
  match p with
  | PDict _ => true
  | _ => false
  end.

(** ** Exceptions

    An exception value is its class with the classes it inherits from (most
    specific first) and the text [str(e)] gives.  [except C] matches when [C]
    occurs among them. *)

Inductive exc_class : Type :=
  | StorageFull
  | StorageWriteDenied
  | ValueError
  | Duplicate
  | Forbidden
  | NotFound
  | HTTPError
  | HTTPRequestEntityTooLarge
  | HTTPServiceUnavailable
  | HTTPBadRequest
  | HTTPConflict
  | HTTPForbidden
  | HTTPNotFound
  | Exception
  | BaseException
  | OtherClass (name : string).

#[global] Instance exc_class_eq_dec : EqDecision exc_class.
Proof. solve_decision. Defined.

Record pyexc : Type := PyExc { exc_mro : list exc_class; exc_str : string }.

Definition isinstance (e : pyexc) (c : exc_class) : bool :=
  bool_decide (c ∈ exc_mro e).

(** [type(e)]: the first class of the resolution order. *)
Definition exc_type (e : pyexc) : option exc_class := head (exc_mro e).

(** [webob.exc.<cls>(explanation=msg)]: every class raised by the proxy derives
    from [webob.exc.HTTPError]. *)
Definition webob_exc (cls : exc_class) (explanation : string) : pyexc :=
  PyExc [cls; HTTPError; Exception; BaseException] explanation.

(** ** The world seen by a proxy *)

Inductive severity : Type := Info | Warn | Error.

(** Calls a proxy forwards to the object it wraps, with their arguments. *)
Inductive method : Type :=
  | Repo_add
  | Repo_save
  | Repo_remove
  | Image_set_data (data : list string) (size : option Z)
  | Task_run (executor : pyval)
  | Task_begin_processing
  | Task_succeed (result : pyval)
  | Task_fail (message : pyval).

Inductive event : Type :=
  | Notified (sev : severity) (event_type : string) (payload : pyval)
  | Delegated (m : method) (target : string).

Record world (E : Type) : Type := World { w_entity : E; w_log : list event }.
Arguments World {E} _ _.
Arguments w_entity {E} _.
Arguments w_log {E} _.

(** A Python method body: it may change the world, and either returns or
    raises. *)
Definition M (E A : Type) : Type := world E → world E * (pyexc + A).

#[global] Instance M_ret {E} : MRet (M E) := λ A a w, (w, inr a).

#[global] Instance M_bind {E} : MBind (M E) := λ A B f m w,
  match m w with
  | (w', inl e) => (w', inl e)
  | (w', inr a) => f a w'
  end.

Definition raise {E A} (e : pyexc) : M E A := λ w, (w, inl e).

(** [try: body / except ... as e: handler e / else: orelse].  The handlers
    guard the body only, not the [else] suite. *)
Definition try_except_else {E A B}
    (body : M E A) (handler : pyexc → M E B) (orelse : A → M E B) : M E B :=
  λ w,
    match body w with
    | (w', inl e) => handler e w'
    | (w', inr a) => orelse a w'
    end.

(** Attribute reads through the proxy reach the wrapped entity. *)
Definition self_entity {E} : M E E := λ w, (w, inr (w_entity w)).

(** [Notifier.info / warn / error]: hand the event to the sink. *)
Definition Notifier_send {E} (sev : severity) (event_type : string)
    (payload : pyval) : M E () :=
  λ w, (World (w_entity w) (w_log w ++ [Notified sev event_type payload]), inr ()).

Definition Notifier_info {E} := @Notifier_send E Info.
Definition Notifier_warn {E} := @Notifier_send E Warn.
Definition Notifier_error {E} := @Notifier_send E Error.

(** Modelled from the spec: the base proxies of [glance.domain.proxy] ([Repo],
    [Image], [Task]) are not part of the sources; per the spec a proxy
    "delegates ... unchanged to the wrapped entity".  [super().<m>(...)] is the
    call [m] on the wrapped object, whose behaviour [base] is a parameter: it
    may change the entity and either returns a value or raises. *)
Definition super_call {E} (ident : E → string)
    (base : method → E → E * (pyexc + pyval)) (m : method) : M E pyval :=
  λ w,
    let '(e', r) := base m (w_entity w) in
    (World e' (w_log w ++ [Delegated m (ident (w_entity w))]), r).

(** What happened during a call: the events appended to the log. *)
Definition is_call (p : method → bool) (ev : event) : bool :=
  match ev with
  | Delegated m _ => p m
  | Notified _ _ _ => false
  end.

Definition is_notification (event_type : string) (ev : event) : bool :=
  match ev with
  | Notified _ t _ => bool_decide (t = event_type)
  | Delegated _ _ => false
  end.

Definition calls (p : method → bool) (log : list event) : nat :=
  length (filter (λ ev, is_call p ev = true) log).

Definition notifications (event_type : string) (log : list event) : nat :=
  length (filter (λ ev, is_notification event_type ev = true) log).

Definition is_remove (m : method) : bool :=
  match m with Repo_remove => true | _ => false end.

Definition is_add (m : method) : bool :=
  match m with Repo_add => true | _ => false end.

(** ** Domain entities *)

(** Time stamps are opaque; [timeutils.isotime] renders one, and renders the
    current time when given none. *)
Definition datetime : Type := Z.

Record location : Type := Location { url : string; metadata : pydict }.

Record Image : Type := mkImage {
  image_id : string;
  name : pyval;
  status : pyval;
  created_at : option datetime;
  updated_at : option datetime;
  min_disk : pyval;
  min_ram : pyval;
  protected : pyval;
  checksum : pyval;
  owner : pyval;
  disk_format : pyval;
  container_format : pyval;
  size : pyval;
  visibility : string;
  extra_properties : pydict;
  tags : list string;
  locations : list location
}.

Record Task : Type := mkTask {
  task_id : string;
  task_type : pyval;
  task_status : pyval;
  task_owner : pyval;
  task_expires_at : option datetime;
  task_created_at : option datetime;
  task_updated_at : option datetime;
  task_input : pyval;
  task_result : pyval;
  task_message : pyval
}.

(** ** [glance/notifier.py] *)

Section Notifier.

(** [timeutils.isotime(at=None)] of [glance.openstack.common]: an ISO 8601
    string, of the current time when [at] is missing. *)
Variable isotime : option datetime → string.

Definition format_image_notification (image : Image) : pydict :=
  [ ("id", PStr (image_id image));
    ("name", name image);
    ("status", status image);
    ("created_at", PStr (isotime (created_at image)));
    ("updated_at", PStr (isotime (updated_at image)));
    ("min_disk", min_disk image);
    ("min_ram", min_ram image);
    ("protected", protected image);
    ("checksum", checksum image);
    ("owner", owner image);
    ("disk_format", disk_format image);
    ("container_format", container_format image);
    ("size", size image);
    ("is_public", PBool (bool_decide (visibility image = "public")));
    ("properties", PDict (extra_properties image));
    ("tags", PList (PStr <$> tags image));
    ("deleted", PBool false);
    ("deleted_at", PNone) ].

Definition format_task_notification (task : Task) : pydict :=
  [ ("id", PStr (task_id task));
    ("type", task_type task);
    ("status", task_status task);
    ("result", PNone);
    ("owner", task_owner task);
    ("message", PNone);
    ("expires_at", PStr (isotime (task_expires_at task)));
    ("created_at", PStr (isotime (task_created_at task)));
    ("updated_at", PStr (isotime (task_updated_at task)));
    ("deleted", PBool false);
    ("deleted_at", PNone) ].

(** The payload of a delete event: the formatted entity with the two deletion
    fields overwritten. *)
Definition mark_deleted (payload : pydict) : pydict :=
  dict_set "deleted_at" (PStr (isotime None))
    (dict_set "deleted" (PBool true) payload).

Section ImageProxies.

(** The wrapped image repository and the wrapped image.  The entity of the
    world is the image a repository method is passed, or the image the
    [ImageProxy] wraps. *)
Variable base : method → Image → Image * (pyexc + pyval).

Definition ImageRepoProxy_save : M Image () :=
  super_call image_id base Repo_save ;;
  image ← self_entity;
  Notifier_info "image.update" (PDict (format_image_notification image)).

Definition ImageRepoProxy_add : M Image () :=
  super_call image_id base Repo_add ;;
  image ← self_entity;
  Notifier_info "image.create" (PDict (format_image_notification image)).

Definition ImageRepoProxy_remove : M Image () :=
  super_call image_id base Repo_remove ;;
  image ← self_entity;
  let payload := mark_deleted (format_image_notification image) in
  Notifier_info "image.delete" (PDict payload).

(** The message each [except] clause of [set_data] formats ([%s] of an
    exception is [str(e)]). *)
Definition msg_StorageFull (e : pyexc) : string :=
  "Image storage media is full: " +:+ exc_str e.

Definition msg_StorageWriteDenied (e : pyexc) : string :=
  "Insufficient permissions on image storage media: " +:+ exc_str e.

Definition msg_ValueError (image : Image) (e : pyexc) : string :=
  "Cannot save data for image " +:+ image_id image +:+ ": " +:+ exc_str e.

Definition msg_Duplicate (image : Image) (e : pyexc) : string :=
  "Unable to upload duplicate image data for image " +:+ image_id image
    +:+ ": " +:+ exc_str e.

Definition msg_Forbidden (image : Image) (e : pyexc) : string :=
  "Not allowed to upload image data for image " +:+ image_id image
    +:+ ": " +:+ exc_str e.

Definition msg_NotFound (image : Image) (e : pyexc) : string :=
  "Image " +:+ image_id image +:+ " could not be found after upload. The image may "
    +:+ "have been deleted during the upload: " +:+ exc_str e.

Definition msg_HTTPError (image : Image) (e : pyexc) : string :=
  "Failed to upload image data for image " +:+ image_id image
    +:+ " due to HTTP error: " +:+ exc_str e.

Definition msg_Exception (image : Image) (e : pyexc) : string :=
  "Failed to upload image data for image " +:+ image_id image
    +:+ " due to internal error: " +:+ exc_str e.

(** The [except] clauses of [ImageProxy.set_data], tried in order. *)
Definition set_data_handler (e : pyexc) : M Image () :=
  image ← self_entity;
  if isinstance e StorageFull then
    let msg := msg_StorageFull e in
    Notifier_error "image.upload" (PStr msg) ;;
    raise (webob_exc HTTPRequestEntityTooLarge msg)
  else if isinstance e StorageWriteDenied then
    let msg := msg_StorageWriteDenied e in
    Notifier_error "image.upload" (PStr msg) ;;
    raise (webob_exc HTTPServiceUnavailable msg)
  else if isinstance e ValueError then
    let msg := msg_ValueError image e in
    Notifier_error "image.upload" (PStr msg) ;;
    raise (webob_exc HTTPBadRequest (exc_str e))
  else if isinstance e Duplicate then
    let msg := msg_Duplicate image e in
    Notifier_error "image.upload" (PStr msg) ;;
    raise (webob_exc HTTPConflict msg)
  else if isinstance e Forbidden then
    let msg := msg_Forbidden image e in
    Notifier_error "image.upload" (PStr msg) ;;
    raise (webob_exc HTTPForbidden msg)
  else if isinstance e NotFound then
    let msg := msg_NotFound image e in
    Notifier_error "image.upload" (PStr msg) ;;
    raise (webob_exc HTTPNotFound (exc_str e))
  else if isinstance e HTTPError then
    let msg := msg_HTTPError image e in
    Notifier_error "image.upload" (PStr msg) ;;
    raise e
  else if isinstance e Exception then
    let msg := msg_Exception image e in
    Notifier_error "image.upload" (PStr msg) ;;
    raise e
  else
    raise e.

Definition ImageProxy_set_data (data : list string) (size : option Z)
    : M Image () :=
  image ← self_entity;
  let payload := format_image_notification image in
  Notifier_info "image.prepare" (PDict payload) ;;
  try_except_else
    (super_call image_id base (Image_set_data data size))
    set_data_handler
    (λ _,
      image ← self_entity;
      let payload := format_image_notification image in
      Notifier_info "image.upload" (PDict payload) ;;
      Notifier_info "image.activate" (PDict payload)).

End ImageProxies.

Section TaskProxies.

(** The wrapped task repository and the wrapped task.  The entity of the
    world is the task a repository method is passed, or the task the
    [TaskProxy] wraps. *)
Variable base : method → Task → Task * (pyexc + pyval).

Definition TaskRepoProxy_add : M Task pyval :=
  task ← self_entity;
  Notifier_info "task.create" (PDict (format_task_notification task)) ;;
  super_call task_id base Repo_add.

Definition TaskRepoProxy_remove : M Task pyval :=
  task ← self_entity;
  let payload := mark_deleted (format_task_notification task) in
  Notifier_info "task.delete" (PDict payload) ;;
  super_call task_id base Repo_add.

Definition TaskProxy_run (executor : pyval) : M Task pyval :=
  task ← self_entity;
  Notifier_info "task.run" (PDict (format_task_notification task)) ;;
  super_call task_id base (Task_run executor).

Definition TaskProxy_begin_processing : M Task pyval :=
  task ← self_entity;
  Notifier_info "task.processing" (PDict (format_task_notification task)) ;;
  super_call task_id base Task_begin_processing.

Definition TaskProxy_succeed (result : pyval) : M Task pyval :=
  task ← self_entity;
  Notifier_info "task.success" (PDict (format_task_notification task)) ;;
  super_call task_id base (Task_succeed result).

Definition TaskProxy_fail (message : pyval) : M Task pyval :=
  task ← self_entity;
  Notifier_info "task.failure" (PDict (format_task_notification task)) ;;
  super_call task_id base (Task_fail message).

End TaskProxies.

End Notifier.

(** * Quota enforcement

    [glance.quota] itself is not among the sources; its unit tests
    ([glance/tests/unit/test_quota.py]) are.  The policy engine, the guarded
    collections and the quota proxies below follow the specification, and the
    stubs and scenarios follow the test module. *)

Module Quota.

(** [hay.startswith(needle)] and [needle in hay] on strings. *)
Fixpoint startswith (needle hay : string) : bool :=
  match needle, hay with
  | EmptyString, _ => true
  | String a needle', String b hay' =>
      Ascii.eqb a b && startswith needle' hay'
  | String _ _, EmptyString => false
  end.

Fixpoint str_contains (needle hay : string) : bool :=
  startswith needle hay
  || match hay with
     | EmptyString => false
     | String _ rest => str_contains needle rest
     end.

(** The four quota settings.  Negative means unlimited. *)
Record Config : Type := mkConfig {
  user_storage_quota : Z;
  image_property_quota : Z;
  image_tag_quota : Z;
  image_member_quota : Z
}.

(** [FakeContext] of the test module: an owner and an admin flag. *)
Record Context : Type := mkContext { owner : string; is_admin : bool }.

Definition FakeContext : Context := mkContext "someone" false.

Inductive count_kind : Type := Properties | Tags | Members.

(** Modelled from the spec: the quota errors of [glance.common.exception],
    which is not among the sources: [StorageQuotaFull] "carries
    attempted/consumed/limit", and the three count errors their message. *)
Inductive exception : Type :=
  | StorageQuotaFull (attempted consumed limit : Z)
  | ImagePropertyLimitExceeded (msg : string)
  | ImageTagLimitExceeded (msg : string)
  | ImageMemberLimitExceeded (msg : string).

(** [str(exc)].  The specification fixes no text for the storage error; it
    is rendered by what it carries. *)
Definition str (exc : exception) : string :=
  match exc with
  | StorageQuotaFull attempted consumed limit =>
      "Attempted: " +:+ pretty attempted +:+ ", Consumed: "
        +:+ pretty consumed +:+ ", Maximum: " +:+ pretty limit
  | ImagePropertyLimitExceeded msg => msg
  | ImageTagLimitExceeded msg => msg
  | ImageMemberLimitExceeded msg => msg
  end.

Definition is_StorageQuotaFull (exc : exception) : bool :=
  match exc with
  | StorageQuotaFull _ _ _ => true
  | _ => false
  end.

(** The wrapped image of the quota proxy: [FakeImage] of the test module,
    with the [extra_properties] the property tests set on their mock. *)
Record FakeImage : Type := mkFakeImage {
  size : option Z;
  image_id : string;
  locations : list location;
  tags : gset string;
  extra_properties : gmap string string
}.

(** [FakeImage.set_data]: the size becomes the total length of the chunks. *)
Definition FakeImage_set_data (self : FakeImage) (data : list string)
    : FakeImage :=
  let total :=
    foldl (λ acc d, (acc + Z.of_nat (String.length d))%Z) 0%Z data in
  mkFakeImage (Some total) (image_id self) (locations self) (tags self)
    (extra_properties self).

(** An image row of the database stub, as [_get_image] creates it. *)
Record db_image : Type := mkDbImage {
  db_id : string;
  db_owner : string;
  db_status : string;
  db_size : Z;
  db_locations : list location
}.

Inductive repo_call : Type :=
  | Called_add (image : string)
  | Called_save (image : string)
  | Called_new_image_member (image member_id : string).

(** What a quota proxy can reach: the wrapped image, the database, the
    members recorded for the image, the backend deletions requested so far
    and the calls that reached the wrapped repository or factory. *)
Record state : Type := mkState {
  image : FakeImage;
  db : list db_image;
  member_count : nat;
  backend_deleted : list string;
  repo_calls : list repo_call
}.

Definition with_image (st : state) (img : FakeImage) : state :=
  mkState img (db st) (member_count st) (backend_deleted st) (repo_calls st).

Definition with_tags (img : FakeImage) (ts : gset string) : FakeImage :=
  mkFakeImage (size img) (image_id img) (locations img) ts
    (extra_properties img).

Definition with_locations (img : FakeImage) (locs : list location)
    : FakeImage :=
  mkFakeImage (size img) (image_id img) locs (tags img)
    (extra_properties img).

Section PolicyEngine.

(** The wording that precedes the report in a limit message, per dimension;
    the specification fixes the report only. *)
Variable limit_description : count_kind → string.

Definition limit_report (attempted maximum : Z) : string :=
  "Attempted: " +:+ pretty attempted +:+ ", Maximum: " +:+ pretty maximum.

Definition limit_exceeded (kind : count_kind) (attempted maximum : Z)
    : exception :=
  let msg := limit_description kind +:+ limit_report attempted maximum in
  match kind with
  | Properties => ImagePropertyLimitExceeded msg
  | Tags => ImageTagLimitExceeded msg
  | Members => ImageMemberLimitExceeded msg
  end.

(** Modelled from the spec: the count check of the quota policy engine,
    [check_count_quota(kind, attempted_count, limit)] of [glance.quota]:
    "computed as len(candidate_collection) <= limit; unlimited bypasses the
    check entirely", with the message reporting "Attempted: {n}, Maximum:
    {limit}".  [None] is success. *)
Definition check_count_quota (kind : count_kind) (attempted limit : Z)
    : option exception :=
  if (limit <? 0)%Z then None
  else if (attempted <=? limit)%Z then None
  else Some (limit_exceeded kind attempted limit).

(** Modelled from the spec: the bytes an owner consumes, "summing, across all
    of the owner's non-deleted images, size_of(image) *
    count_of(locations(image))"; [excluding] leaves one image out. *)
Definition storage_usage (context : Context) (images : list db_image)
    (excluding : option string) : Z :=
  foldr
    (λ i acc,
      if bool_decide (db_owner i = owner context)
         && negb (bool_decide (db_status i = "deleted"))
         && negb (bool_decide (Some (db_id i) = excluding))
      then (db_size i * Z.of_nat (length (db_locations i)) + acc)%Z
      else acc)
    0%Z images.

(** Modelled from the spec: the storage check of the quota policy engine,
    [check_storage_quota(context, requested_additional_bytes,
    already_consumed_bytes)] of [glance.quota]: "if requested_additional_bytes
    + already_consumed <= quota (or quota is unlimited, or caller is admin),
    succeeds; otherwise fails". *)
Definition check_storage_quota (conf : Config) (context : Context)
    (requested consumed : Z) : option exception :=
  let quota := user_storage_quota conf in
  if (quota <? 0)%Z || is_admin context
     || (requested + consumed <=? quota)%Z
  then None
  else Some (StorageQuotaFull requested consumed quota).

(** ** Guarded collections *)

(** The state a call leaves, and the exception it raised, if any. *)
Definition outcome : Type := state * option exception.

(** Modelled from the spec: the collection guard of [glance.quota]
    ([QuotaImageTagsProxy], [QuotaImageLocationsProxy] and the [tags] and
    [locations] setters of its [ImageProxy]), which are not among the
    sources.  Every mutating call "first computes the resulting
    cardinality/weight, runs it through the Quota Policy Engine, and only if
    it passes applies the mutation to the underlying collection; otherwise
    the collection is left untouched and a quota-exceeded failure is
    raised". *)
Definition guarded (check : option exception) (st : state)
    (mutated : FakeImage) : outcome :=
  match check with
  | Some exc => (st, Some exc)
  | None => (with_image st mutated, None)
  end.

Definition cardinal (ts : gset string) : Z := Z.of_nat (stdpp.base.size ts).

(** Modelled from the spec: [QuotaImageTagsProxy.add] of [glance.quota]; the
    candidate collection is the set with the new tag. *)
Definition tags_add (conf : Config) (tag : string) (st : state) : outcome :=
  let candidate := tags (image st) ∪ {[tag]} in
  guarded (check_count_quota Tags (cardinal candidate) (image_tag_quota conf))
    st (with_tags (image st) candidate).

(** Modelled from the spec: the [tags] setter of [glance.quota.ImageProxy],
    [image.tags = value] ("bulk replace via assignment"); the candidate
    collection is the assigned value. *)
Definition tags_replace (conf : Config) (value : list string) (st : state)
    : outcome :=
  guarded
    (check_count_quota Tags (Z.of_nat (length value)) (image_tag_quota conf))
    st (with_tags (image st) (list_to_set value)).

(** Modelled from the spec: the weight of locations in [glance.quota]:
    "weight of each element for quota purposes is the owning image's size",
    so [n] locations of an image cost [n] times its size (nothing while the
    size is not known). *)
Definition location_weight (img : FakeImage) (n : nat) : Z :=
  (default 0 (size img) * Z.of_nat n)%Z.

(** Modelled from the spec: the check [QuotaImageLocationsProxy] of
    [glance.quota] makes when locations are added: their weight comes on top
    of what the owner already consumes. *)
Definition check_added_locations (conf : Config) (context : Context)
    (st : state) (added : list location) : option exception :=
  check_storage_quota conf context
    (location_weight (image st) (length added))
    (storage_usage context (db st) None).

(** Modelled from the spec: the check the [locations] setter of
    [glance.quota.ImageProxy] makes: the new list's weight comes on top of
    what the owner's other images consume. *)
Definition check_replaced_locations (conf : Config) (context : Context)
    (st : state) (value : list location) : option exception :=
  check_storage_quota conf context
    (location_weight (image st) (length value))
    (storage_usage context (db st) (Some (image_id (image st)))).

(** [list.insert(index, x)]: a negative index counts from the end, and an
    index out of range is clipped. *)
Definition py_insert {A} (index : Z) (x : A) (l : list A) : list A :=
  let n := Z.of_nat (length l) in
  let i := if (index <? 0)%Z then Z.max 0 (index + n) else Z.min index n in
  take (Z.to_nat i) l ++ x :: drop (Z.to_nat i) l.

(** Modelled from the spec: [append], [insert], [extend] and [+=] of
    [QuotaImageLocationsProxy] and the [locations] setter of
    [glance.quota.ImageProxy], each guarded as above. *)
Definition locations_append (conf : Config) (context : Context)
    (loc : location) (st : state) : outcome :=
  guarded (check_added_locations conf context st [loc]) st
    (with_locations (image st) (locations (image st) ++ [loc])).

Definition locations_insert (conf : Config) (context : Context) (index : Z)
    (loc : location) (st : state) : outcome :=
  guarded (check_added_locations conf context st [loc]) st
    (with_locations (image st) (py_insert index loc (locations (image st)))).

Definition locations_extend (conf : Config) (context : Context)
    (locs : list location) (st : state) : outcome :=
  guarded (check_added_locations conf context st locs) st
    (with_locations (image st) (locations (image st) ++ locs)).

(** [image.locations += locs] *)
Definition locations_iadd (conf : Config) (context : Context)
    (locs : list location) (st : state) : outcome :=
  guarded (check_added_locations conf context st locs) st
    (with_locations (image st) (locations (image st) ++ locs)).

(** [image.locations = value] *)
Definition locations_replace (conf : Config) (context : Context)
    (value : list location) (st : state) : outcome :=
  guarded (check_replaced_locations conf context st value) st
    (with_locations (image st) value).

(** ** Quota proxies *)

Definition record_call (st : state) (c : repo_call) : state :=
  mkState (image st) (db st) (member_count st) (backend_deleted st)
    (repo_calls st ++ [c]).

Definition check_properties (conf : Config) (st : state) : option exception :=
  check_count_quota Properties
    (Z.of_nat (stdpp.base.size (extra_properties (image st))))
    (image_property_quota conf).

(** Modelled from the spec: [glance.quota.ImageRepoProxy.save] and [.add]
    check the property count and only then reach the wrapped repository
    ("the underlying repository's save is never invoked" on a violation). *)
Definition ImageRepoProxy_save (conf : Config) (st : state) : outcome :=
  match check_properties conf st with
  | Some exc => (st, Some exc)
  | None => (record_call st (Called_save (image_id (image st))), None)
  end.

(** Modelled from the spec: [glance.quota.ImageRepoProxy.add], guarded as
    [save] is. *)
Definition ImageRepoProxy_add (conf : Config) (st : state) : outcome :=
  match check_properties conf st with
  | Some exc => (st, Some exc)
  | None => (record_call st (Called_add (image_id (image st))), None)
  end.

(** Modelled from the spec: [glance.quota.ImageMemberFactoryProxy.
    new_image_member]; the candidate collection is the image's members with
    the new one. *)
Definition new_image_member (conf : Config) (member_id : string) (st : state)
    : outcome :=
  match check_count_quota Members (Z.of_nat (member_count st) + 1)
          (image_member_quota conf) with
  | Some exc => (st, Some exc)
  | None =>
      (record_call st (Called_new_image_member (image_id (image st)) member_id),
       None)
  end.

(** Modelled from the spec: the cleanup after a late storage failure in
    [glance.quota], "physically delete any data already written to the
    backend": [glance.store.safe_delete_from_backend] on the image's first
    location, recorded as the test's mock records it. *)
Definition cleanup (st : state) : state :=
  mkState (image st) (db st) (member_count st)
    (backend_deleted st ++ option_list (url <$> head (locations (image st))))
    (repo_calls st).

(** Modelled from the spec: [glance.quota.ImageProxy.set_data].  A declared
    size is checked before anything is written; the write is then delegated
    to the wrapped image; "the real consumption is re-validated once the
    stream is fully drained, and a late failure after partial write still
    triggers the same cleanup-then-fail path"; with no declared size "the
    check is deferred entirely until the stream is drained". *)
Definition set_data (conf : Config) (context : Context) (data : list string)
    (declared : option Z) (st : state) : outcome :=
  let consumed := storage_usage context (db st) None in
  let early :=
    match declared with
    | Some n => check_storage_quota conf context n consumed
    | None => None
    end in
  match early with
  | Some exc => (st, Some exc)
  | None =>
      let written := with_image st (FakeImage_set_data (image st) data) in
      let actual := default 0%Z (size (image written)) in
      match check_storage_quota conf context actual consumed with
      | Some exc => (cleanup written, Some exc)
      | None => (written, None)
      end
  end.

(** Whether the declared size passed the check made before the write. *)
Definition declared_size_accepted (conf : Config) (context : Context)
    (declared : Z) (st : state) : bool :=
  bool_decide
    (check_storage_quota conf context declared
       (storage_usage context (db st) None) = None).



End PolicyEngine.

(** ** The scenarios of the test module *)

(** The wording of the limit messages used in the scenarios. *)
Definition sample_description (kind : count_kind) : string :=
  match kind with
  | Properties => "Too many image properties. "
  | Tags => "Too many image tags. "
  | Members => "Too many image members. "
  end.

(** A configuration with every dimension unlimited, and [self.config(...)]
    for each setting. *)
Definition unlimited : Config := mkConfig (-1) (-1) (-1) (-1).

Definition config_storage (quota : Z) : Config :=
  mkConfig quota (image_property_quota unlimited) (image_tag_quota unlimited)
    (image_member_quota unlimited).

Definition config_tags (quota : Z) : Config :=
  mkConfig (user_storage_quota unlimited) (image_property_quota unlimited)
    quota (image_member_quota unlimited).

Definition config_properties (quota : Z) : Config :=
  mkConfig (user_storage_quota unlimited) quota (image_tag_quota unlimited)
    (image_member_quota unlimited).

Definition config_members (quota : Z) : Config :=
  mkConfig (user_storage_quota unlimited) (image_property_quota unlimited)
    (image_tag_quota unlimited) quota.

(** A fresh [FakeImage] with the given id, and a fresh [FakeDB]. *)
Definition fresh_image (id : string) : FakeImage :=
  mkFakeImage None id [Location "file:///not/a/path" []] ∅ ∅.

Definition fresh_state (id : string) : state :=
  mkState (fresh_image id) [] 0 [] [].

(** [TestImageQuota._get_image]: the wrapped image, and one row in the
    database with [location_count] locations. *)
Definition _get_image (location_count : nat) (image_size : Z) : state :=
  let base_image :=
    mkFakeImage (Some image_size) "xyz" (locations (fresh_image "xyz")) ∅ ∅ in
  let locations :=
    (λ i : nat, Location ("file:///g/there/it/is" +:+ pretty i) [])
      <$> seq 0 location_count in
  mkState base_image
    [mkDbImage "xyz" (owner FakeContext) "active" image_size locations]
    0 [] [].

Definition assertRaises (expected : exception → bool) (r : outcome) : bool :=
  match r.2 with
  | Some exc => expected exc
  | None => false
  end.

(** [test_append_location], [test_insert_location], [test_extend_location],
    [test_iadd_location] and [test_set_location]: the guarded list against the
    plain list [pre_add_locations] after the same operation. *)
Definition location_tests_without_quota : Prop :=
  let new_location := Location "file:///a/path" [] in
  let image := _get_image 1 10 in
  let pre_add_locations := locations (Quota.image image) in
  let after (r : outcome) := locations (Quota.image r.1) in
  after (locations_append unlimited FakeContext new_location image)
    = pre_add_locations ++ [new_location]
  ∧ after (locations_insert unlimited FakeContext 0 new_location image)
    = new_location :: pre_add_locations
  ∧ after (locations_extend unlimited FakeContext [new_location] image)
    = pre_add_locations ++ [new_location]
  ∧ after (locations_iadd unlimited FakeContext [new_location] image)
    = pre_add_locations ++ [new_location]
  ∧ after (locations_replace unlimited FakeContext [new_location] image)
    = [new_location].

(** [TestImageQuota._quota_exceeded_size]: [set_data] must raise
    [StorageQuotaFull]; with [deleted], the backend must have been asked to
    delete the image's first location. *)
Definition _quota_exceeded_size (quota : Z) (data : list string)
    (deleted : bool) (size : option Z) : bool :=
  let r := set_data (config_storage quota) FakeContext data size
             (fresh_state "id") in
  assertRaises is_StorageQuotaFull r
  && (if deleted
      then bool_decide (backend_deleted r.1 = ["file:///not/a/path"])
      else true).

Definition test_quota_exceeded_no_size : bool :=
  let quota := 10%Z in
  let data := replicate (Z.to_nat (quota + 1)) "*" in
  _quota_exceeded_size quota data true None.

Definition test_quota_exceeded_with_right_size : bool :=
  let quota := 10%Z in
  let data := replicate (Z.to_nat (quota + 1)) "*" in
  _quota_exceeded_size quota data false (Some (Z.of_nat (length data))).

Definition test_quota_exceeded_with_lie_size : bool :=
  let quota := 10%Z in
  let data := replicate (Z.to_nat (quota + 1)) "*" in
  _quota_exceeded_size quota data false (Some (quota - 1)%Z).

Definition test_quota_allowed : bool :=
  let quota := 10%Z in
  let data := replicate (Z.to_nat quota) "*" in
  let r := set_data (config_storage quota) FakeContext data None
             (fresh_state "id") in
  bool_decide (r.2 = None ∧ size (image r.1) = Some quota).

(** ** Vocabulary of the quota statements *)

(** The bytes a stream yields. *)
Definition stream_length (data : list string) : Z :=
  foldl (λ acc d, (acc + Z.of_nat (String.length d))%Z) 0%Z data.







(** [TestImageTagQuotas.test_replace_too_many_image_tags]: with a tag quota
    of 0, assigning two tags raises [ImageTagLimitExceeded] with the report
    in its message, and the image has no tag afterwards. *)
Definition test_replace_too_many_image_tags : bool :=
  let r :=
    tags_replace sample_description (config_tags 0) ["foo"; "bar"]
      (fresh_state "id") in
  match r.2 with
  | Some (ImageTagLimitExceeded msg) =>
      str_contains "Attempted: 2, Maximum: 0" msg
  | _ => false
  end
  && bool_decide (stdpp.base.size (tags (image r.1)) = 0%nat).



End Quota.

(** * Vocabulary of the statements about the notifier *)

(** ** Reading a run *)

(** The events a call appended: the log after it, without the log before. *)
Definition since {E} (before after : world E) : list event :=
  drop (length (w_log before)) (w_log after).

Definition dict_keys (d : pydict) : list string := fst <$> d.

(** Replace the attributes a payload is claimed not to depend on. *)
Definition with_locations (image : Image) (locs : list location) : Image :=
  mkImage (image_id image) (name image) (status image) (created_at image)
    (updated_at image) (min_disk image) (min_ram image) (protected image)
    (checksum image) (owner image) (disk_format image)
    (container_format image) (size image) (visibility image)
    (extra_properties image) (tags image) locs.

Definition with_input_result (task : Task) (input result message : pyval)
    : Task :=
  mkTask (task_id task) (task_type task) (task_status task) (task_owner task)
    (task_expires_at task) (task_created_at task) (task_updated_at task)
    input result message.

(** The failure of the wrapped [set_data].

    The [except] chain read as a table: the first clause that matches the
    exception, the message it formats, and the exception it raises. *)

Definition handler_class (e : pyexc) : option exc_class :=
  List.find (isinstance e)
    [StorageFull; StorageWriteDenied; ValueError; Duplicate; Forbidden;
     NotFound; HTTPError; Exception].

Definition upload_message (image : Image) (e : pyexc) : string :=
  match handler_class e with
  | Some StorageFull => msg_StorageFull e
  | Some StorageWriteDenied => msg_StorageWriteDenied e
  | Some ValueError => msg_ValueError image e
  | Some Duplicate => msg_Duplicate image e
  | Some Forbidden => msg_Forbidden image e
  | Some NotFound => msg_NotFound image e
  | Some HTTPError => msg_HTTPError image e
  | _ => msg_Exception image e
  end.

Definition raised_error (image : Image) (e : pyexc) : pyexc :=
  match handler_class e with
  | Some StorageFull =>
      webob_exc HTTPRequestEntityTooLarge (upload_message image e)
  | Some StorageWriteDenied =>
      webob_exc HTTPServiceUnavailable (upload_message image e)
  | Some ValueError => webob_exc HTTPBadRequest (exc_str e)
  | Some Duplicate => webob_exc HTTPConflict (upload_message image e)
  | Some Forbidden => webob_exc HTTPForbidden (upload_message image e)
  | Some NotFound => webob_exc HTTPNotFound (exc_str e)
  | _ => e
  end.

(** The HTTP class each translating [except] clause raises; the clauses for
    [HTTPError] and [Exception] translate nothing. *)
Definition translated_class (c : exc_class) : option exc_class :=
  match c with
  | StorageFull => Some HTTPRequestEntityTooLarge
  | StorageWriteDenied => Some HTTPServiceUnavailable
  | ValueError => Some HTTPBadRequest
  | Duplicate => Some HTTPConflict
  | Forbidden => Some HTTPForbidden
  | NotFound => Some HTTPNotFound
  | _ => None
  end.

(** The two shapes a notifying method takes.  [call, then notify]: the wrapped
    call comes first; when it raises, nothing else happens and the exception
    propagates; when it returns, one info notification follows. *)
Definition notifies_after_success {E} (ident : E → string)
    (base : method → E → E * (pyexc + pyval)) (m : method)
    (event_type : string) (run : M E ()) : Prop :=
  ∀ w : world E,
    let called := Delegated m (ident (w_entity w)) in
    match (base m (w_entity w)).2 with
    | inl exn => (run w).2 = inl exn ∧ since w (run w).1 = [called]
    | inr _ =>
        (run w).2 = inr ()
        ∧ ∃ payload,
            since w (run w).1 = [called; Notified Info event_type payload]
    end.

(** [notify, then call]: the info notification is out before the wrapped call
    starts, and the method's outcome is the wrapped call's, raised or
    returned. *)
Definition notifies_before_call {E} (ident : E → string)
    (base : method → E → E * (pyexc + pyval)) (m : method)
    (event_type : string) (run : M E pyval) : Prop :=
  ∀ w : world E,
    (run w).2 = (base m (w_entity w)).2
    ∧ ∃ payload,
        since w (run w).1 =
          [Notified Info event_type payload;
           Delegated m (ident (w_entity w))].

(** ** Sample collaborators, for closed instances *)

Definition sample_isotime (at_ : option datetime) : string :=
  match at_ with
  | Some t => pretty t
  | None => "2014-04-17T00:00:00Z"
  end.

Definition sample_image : Image :=
  mkImage "xyz" (PStr "cirros") (PStr "queued") (Some 1%Z) (Some 2%Z)
    (PInt 0) (PInt 0) (PBool false) PNone (PStr "someone") (PStr "raw")
    (PStr "bare") (PInt 10) "private" [("arch", PStr "x86_64")] ["foo"]
    [Location "file:///not/a/path" []].

Definition sample_task : Task :=
  mkTask "t1" (PStr "import") (PStr "pending") (PStr "someone") (Some 9%Z)
    (Some 1%Z) (Some 2%Z) (PDict [("import_from", PStr "swift://secret")])
    PNone PNone.

(** A wrapped object on which every call succeeds and changes nothing, and
    one on which every call raises [e]. *)
Definition base_ok {E} (m : method) (entity : E) : E * (pyexc + pyval) :=
  (entity, inr PNone).

Definition base_raising {E} (e : pyexc) (m : method) (entity : E)
    : E * (pyexc + pyval) :=
  (entity, inl e).

Definition storage_full : pyexc :=
  PyExc [StorageFull; Exception; BaseException] "no space left".

Ltac run_proxy :=
  unfold ImageRepoProxy_save, ImageRepoProxy_add, ImageRepoProxy_remove,
    ImageProxy_set_data, TaskRepoProxy_add, TaskRepoProxy_remove,
    TaskProxy_run, TaskProxy_begin_processing, TaskProxy_succeed,
    TaskProxy_fail, try_except_else, super_call, self_entity, Notifier_info,
    Notifier_error, Notifier_send, raise, mbind, M_bind, mret, M_ret;
  simpl.

(** * The rest of [glance/notifier.py] *)

(** ** [Notifier.__init__] *)

Definition _STRATEGY_ALIASES : gmap string string :=
  list_to_map
    [("logging", "log"); ("rabbit", "messaging"); ("qpid", "messaging");
     ("noop", "noop"); ("default", "noop")].

(** What the constructor leaves behind: whether it issued the deprecation
    warning, the url it asked the transport for, and the driver and publisher
    id of the [messaging.Notifier] it built. *)
Record NotifierSetup : Type := mkNotifierSetup {
  warned : bool;
  transport_url : option string;
  driver : option string;
  publisher_id : string
}.

(** [strategy or CONF.notifier_strategy]: a missing or empty [strategy] is
    falsy. *)
Definition effective_strategy (conf_notifier_strategy : string)
    (strategy : option string) : string :=
  match strategy with
  | Some s => if bool_decide (s = "") then conf_notifier_strategy else s
  | None => conf_notifier_strategy
  end.

Definition Notifier_init (conf_notifier_strategy conf_default_publisher_id
    : string) (strategy : option string) : NotifierSetup :=
  let warn := negb (bool_decide (conf_notifier_strategy = "default")) in
  let _strategy := effective_strategy conf_notifier_strategy strategy in
  let _driver := _STRATEGY_ALIASES !! _strategy in
  let url :=
    if bool_decide (_strategy ∈ ["rabbit"; "qpid"])
    then Some (_strategy +:+ "://")
    else None in
  mkNotifierSetup warn url _driver conf_default_publisher_id.

(** ** [ImageProxy.get_data] *)

(** The request context the proxy reads when it formats a send event. *)
Record RequestContext : Type := mkRequestContext {
  tenant : pyval;
  user : pyval
}.

Definition _format_image_send (image : Image) (context : RequestContext)
    (bytes_sent : Z) : pydict :=
  [ ("bytes_sent", PInt bytes_sent);
    ("image_id", PStr (image_id image));
    ("owner_id", owner image);
    ("receiver_tenant_id", tenant context);
    ("receiver_user_id", user context) ].

(** [n == v] for an int [n]: only a number equals a number ([True] is 1 and
    [False] is 0). *)
Definition py_int_eq (n : Z) (v : pyval) : bool :=
  match v with
  | PInt m => bool_decide (n = m)
  | PBool b => bool_decide (n = if b then 1 else 0)%Z
  | _ => false
  end.

(** What [next()] on a generator gives. *)
Inductive yielded : Type :=
  | Yield (chunk : string)
  | StopIteration
  | Raised (e : pyexc).

(** Where the generator [get_data] stands: not started, suspended at its
    [yield] (with the bytes counted so far, the chunk just handed out and what
    the wrapped iterator still holds), or finished. *)
Inductive gen_state : Type :=
  | Fresh
  | Suspended (sent : Z) (chunk : string) (rest : list string)
  | Finished.

(** The world of a download: the image and the notifications, and the lines
    written with [LOG.error]. *)
Record send_world : Type := mkSendWorld {
  sw_world : world Image;
  sw_logged : list string
}.

Section ImageSend.

Variable context : RequestContext.

(** The notification sink: it takes the event, or raises. *)
Variable sink : severity → string → pyval → option pyexc.

(** The wrapped [image.get_data()]: the chunks it yields, and the exception it
    raises after them, if any. *)
Variable wrapped : list string * option pyexc.

(** After the loop: choose the severity, send [image.send], and log instead
    of raising when sending raises an [Exception]. *)
Definition get_data_finish (sent : Z) (sw : send_world)
    : gen_state * send_world * yielded :=
  let image := w_entity (sw_world sw) in
  let sev := if negb (py_int_eq sent (size image)) then Error else Info in
  let payload := PDict (_format_image_send image context sent) in
  match sink sev "image.send" payload with
  | None =>
      (Finished,
       mkSendWorld
         (World image (w_log (sw_world sw) ++ [Notified sev "image.send" payload]))
         (sw_logged sw),
       StopIteration)
  | Some err =>
      if isinstance err Exception then
        let msg :=
          "An error occurred during image.send notification: "
            +:+ exc_str err in
        (Finished, mkSendWorld (sw_world sw) (sw_logged sw ++ [msg]),
         StopIteration)
      else (Finished, sw, Raised err)
  end.

(** The head of the [for] loop: the next chunk of the wrapped iterator is
    yielded; at its end the loop is left, or its exception propagates. *)
Definition get_data_loop (sent : Z) (rest : list string) (sw : send_world)
    : gen_state * send_world * yielded :=
  match rest with
  | chunk :: rest' => (Suspended sent chunk rest', sw, Yield chunk)
  | [] =>
      match wrapped.2 with
      | Some e => (Finished, sw, Raised e)
      | None => get_data_finish sent sw
      end
  end.

(** One [next()] on [ImageProxy.get_data()]. *)
Definition get_data_next (g : gen_state) (sw : send_world)
    : gen_state * send_world * yielded :=
  match g with
  | Fresh => get_data_loop 0 wrapped.1 sw
  | Suspended sent chunk rest =>
      get_data_loop (sent + Z.of_nat (String.length chunk)) rest sw
  | Finished => (Finished, sw, StopIteration)
  end.

(** A consumer that calls [next()] up to [n] times and stops at the first
    call that yields nothing: the chunks it got, and how the generator ended,
    if it did. *)
Fixpoint pull (n : nat) (g : gen_state) (sw : send_world)
    : list string * gen_state * send_world * option yielded :=
  match n with
  | O => ([], g, sw, None)
  | S n' =>
      match get_data_next g sw with
      | (g', sw', Yield chunk) =>
          let '(chunks, g'', sw'', ended) := pull n' g' sw' in
          (chunk :: chunks, g'', sw'', ended)
      | (g', sw', ended) => ([], g', sw', Some ended)
      end
  end.

End ImageSend.

(** * [glance/cmd/manage.py] *)

Module Manage.

(** [s[n:]] on a string. *)
Fixpoint str_drop (n : nat) (s : string) : string :=
  match n, s with
  | O, _ => s
  | S n', String _ s' => str_drop n' s'
  | S _, EmptyString => EmptyString
  end.

(** One [@args(...)] entry: the positional names and the keyword options
    (all of them strings in this module). *)
Definition arg_spec : Type := list string * gmap string string.

(** A function object: its name and its [args] attribute, if it has one. *)
Record func : Type := mkFunc {
  fn_name : string;
  fn_args : option (list arg_spec)
}.

(** [getattr(func, 'args', [])] *)
Definition getattr_args (f : func) : list arg_spec := default [] (fn_args f).

(** The decorator [args]: its positional and keyword arguments go to the
    front of the function's [args] attribute,
    [func.__dict__.setdefault('args', []).insert(0, (args, kwargs))]. *)
Definition args (a : list string) (kwargs : gmap string string) (f : func)
    : func :=
  mkFunc (fn_name f) (Some ((a, kwargs) :: getattr_args f)).

(** [@d1 @d2 ... def f]: decorators written top to bottom apply bottom
    first. *)
Definition decorate (decorators : list arg_spec) (f : func) : func :=
  foldr (λ d f', args d.1 d.2 f') f decorators.

(** An attribute of an object: a method, or a value that cannot be called. *)
Inductive attr : Type :=
  | Method (f : func)
  | Data (v : pyval).

Definition callable (a : attr) : bool :=
  match a with
  | Method _ => true
  | Data _ => false
  end.

(** An object, as [dir(obj)] and [getattr] show it: its attribute names in
    the order of [dir], each with its value. *)
Definition object : Type := list (string * attr).

Definition methods_of (obj : object) : list (string * attr) :=
  foldl
    (λ result i,
      if callable i.2 && negb (Quota.startswith "_" i.1)
      then result ++ [i]
      else result)
    [] obj.

(** The body of the inner loop of [add_command_parsers] on one entry of
    [action_fn.args]: the entry as the loop leaves it (its [kwargs] dict is
    changed in place) and the name appended to [action_kwargs].  [args[0]] of
    an entry without positional names raises [IndexError] ([None]). *)
Definition normalise_dest (spec : arg_spec) : option (arg_spec * string) :=
  match spec.1 with
  | [] => None
  | first :: _ =>
      let kwargs :=
        match spec.2 !! "dest" with
        | Some _ => spec.2
        | None => <["dest" := str_drop 2 first]> spec.2
        end in
      let dest := default "" (kwargs !! "dest") in
      if Quota.startswith "action_kwarg_" dest
      then
        Some ((spec.1, kwargs),
              str_drop (String.length "action_kwarg_") dest)
      else
        Some ((spec.1, <["dest" := "action_kwarg_" +:+ dest]> kwargs), dest)
  end.

(** The inner loop over [getattr(action_fn, 'args', [])]: the entries as
    they are left and [action_kwargs]. *)
Fixpoint normalise_dests (specs : list arg_spec)
    : option (list arg_spec * list string) :=
  match specs with
  | [] => Some ([], [])
  | spec :: specs' =>
      match normalise_dest spec with
      | None => None
      | Some (spec', action_kwarg) =>
          match normalise_dests specs' with
          | None => None
          | Some (rest, action_kwargs) =>
              Some (spec' :: rest, action_kwarg :: action_kwargs)
          end
      end
  end.

(** What the argument parsers are asked to do.  A parser is named by the
    subparsers object it was added to ([top] for the one handed to
    [add_command_parsers], [category] for the one of the [db] parser) and its
    name. *)
Inductive subparsers : Type := top | category.

Definition parser : Type := subparsers * string.

Inductive default_value : Type :=
  | the_command_object
  | the_method (name : string)
  | the_names (names : list string).

Inductive parser_call : Type :=
  | add_parser (on : subparsers) (name : string)
  | add_subparsers (p : parser) (dest : string)
  | set_defaults (p : parser) (key : string) (value : default_value)
  | add_argument (p : parser) (names : list string)
      (kwargs : gmap string string).

#[global] Instance subparsers_eq_dec : EqDecision subparsers.
Proof. solve_decision. Defined.

Definition is_add_parser (on : subparsers) (name : string) (c : parser_call)
    : bool :=
  match c with
  | add_parser on' name' => bool_decide (on' = on ∧ name' = name)
  | _ => false
  end.

Definition add_legacy_command_parsers : list parser_call :=
  [ add_parser top "db_version";
    set_defaults (top, "db_version") "action_fn" (the_method "version");
    add_parser top "db_upgrade";
    set_defaults (top, "db_upgrade") "action_fn" (the_method "upgrade");
    add_argument (top, "db_upgrade") ["version"] {["nargs" := "?"]};
    add_parser top "db_downgrade";
    set_defaults (top, "db_downgrade") "action_fn" (the_method "downgrade");
    add_argument (top, "db_downgrade") ["version"] ∅;
    add_parser top "db_version_control";
    set_defaults (top, "db_version_control") "action_fn"
      (the_method "version_control");
    add_argument (top, "db_version_control") ["version"] {["nargs" := "?"]};
    add_parser top "db_sync";
    set_defaults (top, "db_sync") "action_fn" (the_method "sync");
    add_argument (top, "db_sync") ["version"] {["nargs" := "?"]};
    add_argument (top, "db_sync") ["current_version"] {["nargs" := "?"]} ].

(** The body of the [for] loop of [add_command_parsers] for one method: the
    method as the loop leaves it and the calls made on the parsers. *)
Definition add_action_parser (action : string) (action_fn : attr)
    : option (attr * list parser_call) :=
  let specs :=
    match action_fn with
    | Method f => getattr_args f
    | Data _ => []
    end in
  match normalise_dests specs with
  | None => None
  | Some (specs', action_kwargs) =>
      let action_fn' :=
        match action_fn with
        | Method f => Method (mkFunc (fn_name f) ((λ _, specs') <$> fn_args f))
        | Data v => Data v
        end in
      Some
        (action_fn',
         [add_parser category action]
           ++ ((λ spec, add_argument (category, action) spec.1 spec.2)
                 <$> specs')
           ++ [ set_defaults (category, action) "action_fn"
                  (the_method action);
                set_defaults (category, action) "action_kwargs"
                  (the_names action_kwargs);
                add_argument (category, action) ["action_args"]
                  {["nargs" := "*"]} ]
           ++ add_legacy_command_parsers)
  end.

(** The [for] loop over [methods_of(command_object)]. *)
Fixpoint add_action_parsers (methods : list (string * attr))
    : option (list (string * attr) * list parser_call) :=
  match methods with
  | [] => Some ([], [])
  | (action, action_fn) :: methods' =>
      match add_action_parser action action_fn with
      | None => None
      | Some (action_fn', calls) =>
          match add_action_parsers methods' with
          | None => None
          | Some (rest, calls') =>
              Some ((action, action_fn') :: rest, calls ++ calls')
          end
      end
  end.

(** [add_command_parsers], with the object [DbCommands()] it creates as a
    parameter: the methods as it leaves them, and the calls it makes on the
    parsers; [None] when an [args] entry has no positional name. *)
Definition add_command_parsers (command_object : object)
    : option (list (string * attr) * list parser_call) :=
  match add_action_parsers (methods_of command_object) with
  | None => None
  | Some (methods, calls) =>
      Some
        (methods,
         [ add_parser top "db";
           set_defaults (top, "db") "command_object" the_command_object;
           add_subparsers (top, "db") "action" ]
           ++ calls)
  end.

(** [DbCommands()] as [dir] lists it: the names the class body defines.  The
    names every instance inherits besides all start with an underscore. *)
Definition version_option : arg_spec :=
  (["--version"],
   {["metavar" := "<version>"; "help" := "Database version"]}).

Definition current_version_option : arg_spec :=
  (["--current_version"],
   {["metavar" := "<version>"; "help" := "Current Database version"]}).

Definition DbCommands : object :=
  [ ("__doc__", Data (PStr "Class for managing the db"));
    ("__init__", Method (mkFunc "__init__" None));
    ("__module__", Data (PStr "__main__"));
    ("downgrade",
     Method (decorate [version_option] (mkFunc "downgrade" None)));
    ("sync",
     Method
       (decorate [version_option; current_version_option]
          (mkFunc "sync" None)));
    ("upgrade", Method (decorate [version_option] (mkFunc "upgrade" None)));
    ("version", Method (mkFunc "version" None));
    ("version_control",
     Method (decorate [version_option] (mkFunc "version_control" None))) ].

(** How often [add_parser(name)] was called on a subparsers object. *)
Definition count_add_parser (on : subparsers) (name : string)
    (calls : list parser_call) : nat :=
  length (List.filter (is_add_parser on name) calls).

(** The [action_kwargs] default set on the parser of an action. *)
Definition action_kwargs_of (action : string) (calls : list parser_call)
    : list (list string) :=
  omap (λ c,
    match c with
    | set_defaults p "action_kwargs" (the_names names) =>
        if bool_decide (p = (category, action)) then Some names else None
    | _ => None
    end) calls.

(** What [add_command_parsers] leaves and does on [DbCommands()]. *)
Definition DbCommands_registered
    : list (string * attr) * list parser_call :=
  default ([], []) (add_command_parsers DbCommands).

End Manage.

(** ** More vocabulary and sample collaborators *)

(** The payloads of the notifications in a log, in order. *)
Definition notified_payloads (log : list event) : list pyval :=
  omap (λ ev,
    match ev with
    | Notified _ _ payload => Some payload
    | Delegated _ _ => None
    end) log.

(** A request context, a download world, a sink that takes every event and
    one that always raises [err]. *)
Definition sample_context : RequestContext :=
  mkRequestContext (PStr "tenant1") (PStr "user1").

Definition sample_send_world : send_world :=
  mkSendWorld (World sample_image []) [].

Definition accepting_sink (sev : severity) (event_type : string)
    (payload : pyval) : option pyexc :=
  None.

Definition failing_sink (err : pyexc) (sev : severity) (event_type : string)
    (payload : pyval) : option pyexc :=
  Some err.

Definition connection_lost : pyexc :=
  PyExc [OtherClass "MessagingTimeout"; Exception; BaseException]
    "connection lost".

Definition keyboard_interrupt : pyexc :=
  PyExc [OtherClass "KeyboardInterrupt"; BaseException] "".

Definition bad_checksum : pyexc :=
  PyExc [ValueError; Exception; BaseException] "checksum mismatch".

(** A wrapped task whose [succeed] sets the status. *)
Definition succeeding_task (m : method) (task : Task)
    : Task * (pyexc + pyval) :=
  match m with
  | Task_succeed result =>
      (mkTask (task_id task) (task_type task) (PStr "success")
         (task_owner task) (task_expires_at task) (task_created_at task)
         (task_updated_at task) (task_input task) result (task_message task),
       inr PNone)
  | _ => (task, inr PNone)
  end.

(** * Facts about the notifier *)

Lemma since_app {E} (w : world E) (e' : E) (evs : list event) :
  since w (World e' (w_log w ++ evs)) = evs.
Proof. unfold since. simpl. apply drop_app_length. Qed.

Section NotifierFacts.

Variable isotime : option datetime → string.

Abbreviation fmt_image := (format_image_notification isotime).
Abbreviation fmt_task := (format_task_notification isotime).

(** A proxy that calls the wrapped object first and notifies afterwards. *)
Lemma ImageRepoProxy_save_run base (w : world Image) :
  ImageRepoProxy_save isotime base w =
    let '(e', r) := base Repo_save (w_entity w) in
    let called := Delegated Repo_save (image_id (w_entity w)) in
    match r with
    | inl exn => (World e' (w_log w ++ [called]), inl exn)
    | inr _ =>
        (World e' (w_log w ++
           [called; Notified Info "image.update" (PDict (fmt_image e'))]),
         inr ())
    end.
Proof.
  run_proxy. destruct (base Repo_save (w_entity w)) as [e' [exn|v]]; simpl;
    [reflexivity | by rewrite <- app_assoc].
Qed.

Lemma ImageRepoProxy_add_run base (w : world Image) :
  ImageRepoProxy_add isotime base w =
    let '(e', r) := base Repo_add (w_entity w) in
    let called := Delegated Repo_add (image_id (w_entity w)) in
    match r with
    | inl exn => (World e' (w_log w ++ [called]), inl exn)
    | inr _ =>
        (World e' (w_log w ++
           [called; Notified Info "image.create" (PDict (fmt_image e'))]),
         inr ())
    end.
Proof.
  run_proxy. destruct (base Repo_add (w_entity w)) as [e' [exn|v]]; simpl;
    [reflexivity | by rewrite <- app_assoc].
Qed.

Lemma ImageRepoProxy_remove_run base (w : world Image) :
  ImageRepoProxy_remove isotime base w =
    let '(e', r) := base Repo_remove (w_entity w) in
    let called := Delegated Repo_remove (image_id (w_entity w)) in
    match r with
    | inl exn => (World e' (w_log w ++ [called]), inl exn)
    | inr _ =>
        (World e' (w_log w ++
           [called;
            Notified Info "image.delete"
              (PDict (mark_deleted isotime (fmt_image e')))]),
         inr ())
    end.
Proof.
  run_proxy. destruct (base Repo_remove (w_entity w)) as [e' [exn|v]]; simpl;
    [reflexivity | by rewrite <- app_assoc].
Qed.

(** A proxy that notifies first and calls the wrapped object afterwards. *)
Lemma notify_then_call (event_type : string) (m : method) base
    (w : world Task) :
  (task ← self_entity;
   Notifier_info event_type (PDict (fmt_task task)) ;;
   super_call task_id base m) w =
    let '(e', r) := base m (w_entity w) in
    (World e' (w_log w ++
       [Notified Info event_type (PDict (fmt_task (w_entity w)));
        Delegated m (task_id (w_entity w))]),
     r).
Proof.
  run_proxy. destruct (base m (w_entity w)) as [e' r].
  by rewrite <- app_assoc.
Qed.

Lemma TaskRepoProxy_remove_run base (w : world Task) :
  TaskRepoProxy_remove isotime base w =
    let '(e', r) := base Repo_add (w_entity w) in
    (World e' (w_log w ++
       [Notified Info "task.delete"
          (PDict (mark_deleted isotime (fmt_task (w_entity w))));
        Delegated Repo_add (task_id (w_entity w))]),
     r).
Proof.
  run_proxy. destruct (base Repo_add (w_entity w)) as [e' r].
  by rewrite <- app_assoc.
Qed.

Lemma handler_class_caught (e : pyexc) :
  isinstance e Exception = true → handler_class e ≠ None.
Proof.
  intros He. unfold handler_class. simpl.
  rewrite He. repeat case_match; done.
Qed.

Lemma set_data_handler_run (e : pyexc) (w : world Image) :
  isinstance e Exception = true →
  set_data_handler e w =
    (World (w_entity w)
       (w_log w ++
          [Notified Error "image.upload"
             (PStr (upload_message (w_entity w) e))]),
     inl (raised_error (w_entity w) e)).
Proof.
  intros He. unfold set_data_handler, raised_error, upload_message,
    handler_class.
  run_proxy.
  destruct (isinstance e StorageFull); [reflexivity |].
  destruct (isinstance e StorageWriteDenied); [reflexivity |].
  destruct (isinstance e ValueError); [reflexivity |].
  destruct (isinstance e Duplicate); [reflexivity |].
  destruct (isinstance e Forbidden); [reflexivity |].
  destruct (isinstance e NotFound); [reflexivity |].
  destruct (isinstance e HTTPError); [reflexivity |].
  by rewrite He.
Qed.

Lemma set_data_failure_run base data size (w : world Image) img' e :
  base (Image_set_data data size) (w_entity w) = (img', inl e) →
  isinstance e Exception = true →
  ImageProxy_set_data isotime base data size w =
    (World img'
       (w_log w ++
          [Notified Info "image.prepare" (PDict (fmt_image (w_entity w)));
           Delegated (Image_set_data data size) (image_id (w_entity w));
           Notified Error "image.upload" (PStr (upload_message img' e))]),
     inl (raised_error img' e)).
Proof.
  intros Hbase He. unfold ImageProxy_set_data.
  unfold try_except_else, super_call, self_entity at 1, Notifier_info,
    Notifier_send, mbind, M_bind. simpl.
  rewrite Hbase. rewrite set_data_handler_run by done. simpl.
  by rewrite <- !app_assoc.
Qed.

Lemma set_data_success_run base data size (w : world Image) img' v :
  base (Image_set_data data size) (w_entity w) = (img', inr v) →
  ImageProxy_set_data isotime base data size w =
    (World img'
       (w_log w ++
          [Notified Info "image.prepare" (PDict (fmt_image (w_entity w)));
           Delegated (Image_set_data data size) (image_id (w_entity w));
           Notified Info "image.upload" (PDict (fmt_image img'));
           Notified Info "image.activate" (PDict (fmt_image img'))]),
     inr ()).
Proof.
  intros Hbase. run_proxy. rewrite Hbase. simpl.
  by rewrite <- !app_assoc.
Qed.

End NotifierFacts.

(** ** Repository removal (C1) *)

(** The image side does what the claim says: when the wrapped [remove]
    returns, it was called once and one [image.delete] event follows, with the
    deletion fields set. *)
Lemma ImageRepoProxy_remove_once isotime base (w : world Image) img' v :
  base Repo_remove (w_entity w) = (img', inr v) →
  let w' := (ImageRepoProxy_remove isotime base w).1 in
  let payload := mark_deleted isotime (format_image_notification isotime img') in
  since w w' =
    [Delegated Repo_remove (image_id (w_entity w));
     Notified Info "image.delete" (PDict payload)]
  ∧ calls is_remove (since w w') = 1%nat
  ∧ notifications "image.delete" (since w w') = 1%nat
  ∧ dict_get "deleted" payload = Some (PBool true)
  ∧ dict_get "deleted_at" payload = Some (PStr (isotime None)).
Proof.
  intros Hbase. rewrite ImageRepoProxy_remove_run, Hbase. simpl.
  rewrite since_app. repeat split.
Qed.

(** C1, the task side, where the code departs from the claim:
    [TaskRepoProxy.remove] emits exactly one [task.delete] notification whose
    payload has [deleted = True] and a non-null [deleted_at], but it never
    invokes the wrapped repository's [remove]; it hands the task to the wrapped
    repository's [add] instead, once. *)
Theorem TaskRepoProxy_remove_calls_add isotime base (w : world Task) :
  let w' := (TaskRepoProxy_remove isotime base w).1 in
  let payload :=
    mark_deleted isotime (format_task_notification isotime (w_entity w)) in
  since w w' =
    [Notified Info "task.delete" (PDict payload);
     Delegated Repo_add (task_id (w_entity w))]
  ∧ calls is_remove (since w w') = 0%nat
  ∧ calls is_add (since w w') = 1%nat
  ∧ notifications "task.delete" (since w w') = 1%nat
  ∧ dict_get "deleted" payload = Some (PBool true)
  ∧ dict_get "deleted_at" payload = Some (PStr (isotime None)).
Proof.
  rewrite TaskRepoProxy_remove_run.
  destruct (base Repo_add (w_entity w)) as [e' r]. simpl.
  rewrite since_app. repeat split.
Qed.

Example TaskRepoProxy_remove_sample :
  (TaskRepoProxy_remove sample_isotime base_ok (World sample_task [])).1
  = World sample_task
      [Notified Info "task.delete"
         (PDict
            [("id", PStr "t1"); ("type", PStr "import");
             ("status", PStr "pending"); ("result", PNone);
             ("owner", PStr "someone"); ("message", PNone);
             ("expires_at", PStr "9"); ("created_at", PStr "1");
             ("updated_at", PStr "2"); ("deleted", PBool true);
             ("deleted_at", PStr "2014-04-17T00:00:00Z")]);
       Delegated Repo_add "t1"].
Proof. reflexivity. Qed.

(** ** Order of delegation and notification (C4) *)

(** C4 as stated fails on the task proxies: [TaskProxy.run] has already
    emitted [task.run] when the wrapped [run] raises. *)
Lemma TaskProxy_run_notifies_before_failing_call :
  let w := World sample_task [] in
  let r := TaskProxy_run sample_isotime (base_raising storage_full) PNone w in
  r.2 = inl storage_full
  ∧ notifications "task.run" (since w r.1) = 1%nat
  ∧ since w r.1 =
      [Notified Info "task.run"
         (PDict (format_task_notification sample_isotime sample_task));
       Delegated (Task_run PNone) "t1"].
Proof. repeat split. Qed.

(** C4, amended.  The image repository proxy calls the wrapped repository
    first and notifies only when that call returned: a raising [add], [save]
    or [remove] leaves no notification.  The task repository proxy and the
    task proxy notify first and delegate afterwards, whatever the delegated
    call then does. *)
Theorem notification_order isotime :
  (∀ base,
     notifies_after_success image_id base Repo_add "image.create"
       (ImageRepoProxy_add isotime base)
     ∧ notifies_after_success image_id base Repo_save "image.update"
         (ImageRepoProxy_save isotime base)
     ∧ notifies_after_success image_id base Repo_remove "image.delete"
         (ImageRepoProxy_remove isotime base))
  ∧ (∀ base,
       notifies_before_call task_id base Repo_add "task.create"
         (TaskRepoProxy_add isotime base)
       ∧ notifies_before_call task_id base Repo_add "task.delete"
           (TaskRepoProxy_remove isotime base)
       ∧ notifies_before_call task_id base Task_begin_processing
           "task.processing" (TaskProxy_begin_processing isotime base)
       ∧ (∀ executor,
            notifies_before_call task_id base (Task_run executor) "task.run"
              (TaskProxy_run isotime base executor))
       ∧ (∀ result,
            notifies_before_call task_id base (Task_succeed result)
              "task.success" (TaskProxy_succeed isotime base result))
       ∧ (∀ message,
            notifies_before_call task_id base (Task_fail message)
              "task.failure" (TaskProxy_fail isotime base message))).
Proof.
  split; intros base.
  - repeat apply conj; intros w; cbv zeta;
      first [ rewrite ImageRepoProxy_add_run
            | rewrite ImageRepoProxy_save_run
            | rewrite ImageRepoProxy_remove_run ];
      match goal with
      | |- context [base ?m (w_entity w)] =>
          destruct (base m (w_entity w)) as [e' [exn|v]]
      end; simpl; rewrite since_app; eauto.
  - repeat apply conj; intros; intros w;
      first [ rewrite TaskRepoProxy_remove_run
            | unfold TaskRepoProxy_add, TaskProxy_begin_processing,
                TaskProxy_run, TaskProxy_succeed, TaskProxy_fail;
              rewrite notify_then_call ];
      match goal with
      | |- context [base ?m (w_entity w)] =>
          destruct (base m (w_entity w)) as [e' r]
      end; simpl; rewrite since_app; eauto.
Qed.

(** ** Failure of an upload (C3, C10) *)

(** C3 as stated fails: a wrapped [StorageFull] leaves the proxy as a
    [webob.exc.HTTPRequestEntityTooLarge], which is no [StorageFull]. *)
Lemma set_data_reclassifies_StorageFull :
  let w := World sample_image [] in
  let r :=
    ImageProxy_set_data sample_isotime (base_raising storage_full) ["*"] None
      w in
  exc_type storage_full = Some StorageFull
  ∧ ∃ e',
      r.2 = inl e'
      ∧ exc_type e' = Some HTTPRequestEntityTooLarge
      ∧ isinstance e' StorageFull = false.
Proof. split; [reflexivity |]. eexists. repeat split. Qed.

(** C3, amended.  When the wrapped [set_data] raises an [Exception], the proxy
    emits one [image.upload] error notification carrying the message of the
    first matching clause, after the [image.prepare] notification and the
    wrapped call, and then always raises: for [StorageFull],
    [StorageWriteDenied], [ValueError], [Duplicate], [Forbidden] and
    [NotFound] the fixed HTTP error of that clause, and for an [HTTPError] or
    any other [Exception] the caught exception itself. *)
Theorem set_data_failure_notifies_then_raises isotime base data size
    (w : world Image) img' e :
  base (Image_set_data data size) (w_entity w) = (img', inl e) →
  isinstance e Exception = true →
  let r := ImageProxy_set_data isotime base data size w in
  since w r.1 =
    [Notified Info "image.prepare"
       (PDict (format_image_notification isotime (w_entity w)));
     Delegated (Image_set_data data size) (image_id (w_entity w));
     Notified Error "image.upload" (PStr (upload_message img' e))]
  ∧ ∃ e',
      r.2 = inl e'
      ∧ match handler_class e ≫= translated_class with
        | Some cls => exc_type e' = Some cls
        | None => e' = e
        end.
Proof.
  intros Hbase He r. subst r.
  rewrite (set_data_failure_run _ _ _ _ _ _ _ Hbase He). simpl.
  rewrite since_app. split; [reflexivity |].
  eexists. split; [reflexivity |].
  pose proof (handler_class_caught e He) as Hc.
  unfold raised_error.
  destruct (handler_class e) as [[]|] eqn:Hh; simpl; try done.
  all: apply List.find_some in Hh as [Hin _]; simpl in Hin;
    by repeat destruct Hin as [? | Hin].
Qed.

Lemma set_data_failure_notifies_then_raises_sample :
  let w := World sample_image [] in
  let r :=
    ImageProxy_set_data sample_isotime (base_raising storage_full) ["*"] None
      w in
  since w r.1 =
    [Notified Info "image.prepare"
       (PDict (format_image_notification sample_isotime sample_image));
     Delegated (Image_set_data ["*"] None) "xyz";
     Notified Error "image.upload"
       (PStr (upload_message sample_image storage_full))]
  ∧ ∃ e',
      r.2 = inl e'
      ∧ match handler_class storage_full ≫= translated_class with
        | Some cls => exc_type e' = Some cls
        | None => e' = storage_full
        end.
Proof.
  apply (set_data_failure_notifies_then_raises sample_isotime
           (base_raising storage_full) ["*"] None (World sample_image [])
           sample_image storage_full); reflexivity.
Defined.

(** C10.  On a failing [set_data] the payload of the [image.upload] error
    notification is the formatted message, a string: it is no mapping and has
    none of the keys [id], [status], [deleted] that the payload of the
    success-path [image.upload] notification, a formatted image, has. *)
Theorem set_data_error_payload_is_message isotime base data size
    (w : world Image) img' e :
  base (Image_set_data data size) (w_entity w) = (img', inl e) →
  isinstance e Exception = true →
  let r := ImageProxy_set_data isotime base data size w in
  let sent p := Notified Error "image.upload" p in
  let success_payload := PDict (format_image_notification isotime img') in
  (∃ msg : string,
     msg = upload_message img' e
     ∧ last (w_log r.1) = Some (sent (PStr msg))
     ∧ notifications "image.upload" (since w r.1) = 1%nat
     ∧ is_mapping (PStr msg) = false
     ∧ (∀ k, getitem k (PStr msg) = None))
  ∧ is_mapping success_payload = true
  ∧ getitem "id" success_payload = Some (PStr (image_id img'))
  ∧ getitem "status" success_payload = Some (status img')
  ∧ getitem "deleted" success_payload = Some (PBool false).
Proof.
  intros Hbase He r sent success_payload. subst r.
  rewrite (set_data_failure_run _ _ _ _ _ _ _ Hbase He). simpl.
  rewrite since_app. split; [| repeat split].
  eexists. split; [reflexivity |].
  split; [| repeat split].
  rewrite last_app. reflexivity.
Qed.

Lemma set_data_error_payload_is_message_sample :
  let w := World sample_image [] in
  let r :=
    ImageProxy_set_data sample_isotime (base_raising storage_full) ["*"] None
      w in
  let success_payload :=
    PDict (format_image_notification sample_isotime sample_image) in
  (∃ msg : string,
     msg = upload_message sample_image storage_full
     ∧ last (w_log r.1) = Some (Notified Error "image.upload" (PStr msg))
     ∧ notifications "image.upload" (since w r.1) = 1%nat
     ∧ is_mapping (PStr msg) = false
     ∧ (∀ k, getitem k (PStr msg) = None))
  ∧ is_mapping success_payload = true
  ∧ getitem "id" success_payload = Some (PStr "xyz")
  ∧ getitem "status" success_payload = Some (PStr "queued")
  ∧ getitem "deleted" success_payload = Some (PBool false).
Proof.
  apply (set_data_error_payload_is_message sample_isotime
           (base_raising storage_full) ["*"] None (World sample_image [])
           sample_image storage_full); reflexivity.
Defined.

Example upload_message_sample :
  upload_message sample_image storage_full
  = "Image storage media is full: no space left".
Proof. reflexivity. Qed.

(** ** Notifications around an upload (C8) *)

(** C8.  Every [set_data] through the notifying proxy first emits an
    [image.prepare] info notification carrying the image as it is before the
    write, and only then calls the wrapped [set_data]; when that call returns,
    an [image.upload] info notification and then a separate [image.activate]
    info notification follow, both carrying the image as the write left
    it. *)
Theorem set_data_prepare_upload_activate isotime base data size
    (w : world Image) :
  let r := ImageProxy_set_data isotime base data size w in
  let prepare :=
    Notified Info "image.prepare"
      (PDict (format_image_notification isotime (w_entity w))) in
  let write := Delegated (Image_set_data data size) (image_id (w_entity w)) in
  (∃ later, since w r.1 = prepare :: write :: later)
  ∧ match base (Image_set_data data size) (w_entity w) with
    | (img', inr _) =>
        let final := PDict (format_image_notification isotime img') in
        r.2 = inr ()
        ∧ w_entity r.1 = img'
        ∧ since w r.1 =
            [prepare; write; Notified Info "image.upload" final;
             Notified Info "image.activate" final]
    | (_, inl _) => notifications "image.activate" (since w r.1) = 0%nat
    end.
Proof.
  cbv zeta.
  destruct (base (Image_set_data data size) (w_entity w)) as [img' [e|v]]
    eqn:Hbase.
  - unfold ImageProxy_set_data, try_except_else, super_call,
      self_entity at 1, Notifier_info, Notifier_send, mbind, M_bind. simpl.
    rewrite Hbase. unfold set_data_handler. run_proxy.
    repeat (case_match; simpl); rewrite <- ?app_assoc; simpl;
      rewrite since_app; split; eauto.
  - rewrite (set_data_success_run _ _ _ _ _ _ _ Hbase). simpl.
    rewrite since_app. split; eauto.
Qed.

Example set_data_success_sample :
  let w := World sample_image [] in
  let payload :=
    PDict (format_image_notification sample_isotime sample_image) in
  ImageProxy_set_data sample_isotime base_ok ["**"; "*"] (Some 3%Z) w
  = (World sample_image
       [Notified Info "image.prepare" payload;
        Delegated (Image_set_data ["**"; "*"] (Some 3%Z)) "xyz";
        Notified Info "image.upload" payload;
        Notified Info "image.activate" payload],
     inr ()).
Proof. reflexivity. Qed.

(** ** What a payload leaves out (C9) *)

(** C9.  The formatted image payload has a fixed set of keys, none of them a
    location key, and does not depend on the image's locations; the formatted
    task payload has a fixed set of keys with no [input], its [result] (and
    [message]) are always [None], and it does not depend on the task's input,
    result or message.  The same holds of the payloads of the delete
    events. *)
Theorem payloads_leave_out_sensitive_data isotime :
  (∀ image,
     dict_keys (format_image_notification isotime image) =
       ["id"; "name"; "status"; "created_at"; "updated_at"; "min_disk";
        "min_ram"; "protected"; "checksum"; "owner"; "disk_format";
        "container_format"; "size"; "is_public"; "properties"; "tags";
        "deleted"; "deleted_at"])
  ∧ (∀ image locs,
       format_image_notification isotime (with_locations image locs) =
         format_image_notification isotime image
       ∧ mark_deleted isotime
           (format_image_notification isotime (with_locations image locs)) =
         mark_deleted isotime (format_image_notification isotime image))
  ∧ (∀ task,
       dict_keys (format_task_notification isotime task) =
         ["id"; "type"; "status"; "result"; "owner"; "message"; "expires_at";
          "created_at"; "updated_at"; "deleted"; "deleted_at"]
       ∧ dict_get "result" (format_task_notification isotime task) = Some PNone
       ∧ dict_get "message" (format_task_notification isotime task)
         = Some PNone)
  ∧ (∀ task input result message,
       format_task_notification isotime
         (with_input_result task input result message) =
         format_task_notification isotime task
       ∧ mark_deleted isotime
           (format_task_notification isotime
              (with_input_result task input result message)) =
         mark_deleted isotime (format_task_notification isotime task)).
Proof. repeat split. Qed.

Example format_image_notification_sample :
  format_image_notification sample_isotime sample_image
  = [("id", PStr "xyz"); ("name", PStr "cirros"); ("status", PStr "queued");
     ("created_at", PStr "1"); ("updated_at", PStr "2");
     ("min_disk", PInt 0); ("min_ram", PInt 0); ("protected", PBool false);
     ("checksum", PNone); ("owner", PStr "someone");
     ("disk_format", PStr "raw"); ("container_format", PStr "bare");
     ("size", PInt 10); ("is_public", PBool false);
     ("properties", PDict [("arch", PStr "x86_64")]);
     ("tags", PList [PStr "foo"]); ("deleted", PBool false);
     ("deleted_at", PNone)].
Proof. reflexivity. Qed.

(** * Facts about quota enforcement *)

Module QuotaFacts.
Import Quota.

(** The storage and location scenarios of the test module hold of the
    model. *)
Example storage_scenarios :
  test_quota_allowed = true
  ∧ test_quota_exceeded_no_size = true
  ∧ test_quota_exceeded_with_right_size = true
  ∧ test_quota_exceeded_with_lie_size = true
  ∧ location_tests_without_quota.
Proof. repeat split; vm_compute; reflexivity. Qed.




Lemma check_storage_quota_passes conf context requested consumed :
  check_storage_quota conf context requested consumed = None ↔
    (user_storage_quota conf < 0)%Z ∨ is_admin context = true
    ∨ (requested + consumed ≤ user_storage_quota conf)%Z.
Proof.
  unfold check_storage_quota.
  destruct (Z.ltb_spec (user_storage_quota conf) 0),
    (is_admin context),
    (Z.leb_spec (requested + consumed) (user_storage_quota conf));
    simpl; split; try done; try (intros; lia); eauto.
Qed.

Lemma check_storage_quota_fails conf context requested consumed :
  is_admin context = false →
  (0 ≤ user_storage_quota conf < requested + consumed)%Z →
  check_storage_quota conf context requested consumed =
    Some (StorageQuotaFull requested consumed (user_storage_quota conf)).
Proof.
  intros Hadmin Hq. unfold check_storage_quota. rewrite Hadmin.
  destruct (Z.ltb_spec (user_storage_quota conf) 0); [lia |].
  destruct (Z.leb_spec (requested + consumed) (user_storage_quota conf));
    [lia | reflexivity].
Qed.

(** ** A declared size that understates the stream (C2) *)

(** C2 as stated fails: with a quota of 10 bytes, a declared size of 9 and a
    stream of 11 bytes, the declared size passes the first check and the
    write proceeds, but [set_data] does raise [StorageQuotaFull], which is
    what [test_quota_exceeded_with_lie_size] asserts. *)
Lemma understated_size_still_raises :
  let st := fresh_state "id" in
  let conf := config_storage 10 in
  let r := set_data conf FakeContext (replicate 11 "*") (Some 9%Z) st in
  declared_size_accepted conf FakeContext 9 st = true
  ∧ size (image r.1) = Some 11%Z
  ∧ r.2 = Some (StorageQuotaFull 11 0 10)
  ∧ test_quota_exceeded_with_lie_size = true.
Proof. repeat split; vm_compute; reflexivity. Qed.

(** C2, amended.  When the declared size fits the quota and the stream does
    not (a quota of 10 bytes, 9 declared, 11 streamed), the check on the
    declared size passes and the write proceeds, and [set_data] then raises
    [StorageQuotaFull] on the size actually written. *)
Theorem set_data_understated_size conf context data declared st :
  is_admin context = false →
  let consumed := storage_usage context (db st) None in
  let quota := user_storage_quota conf in
  (0 ≤ quota)%Z →
  (declared + consumed ≤ quota < stream_length data + consumed)%Z →
  let r := set_data conf context data (Some declared) st in
  declared_size_accepted conf context declared st = true
  ∧ image r.1 = FakeImage_set_data (image st) data
  ∧ size (image r.1) = Some (stream_length data)
  ∧ r.2 = Some (StorageQuotaFull (stream_length data) consumed quota).
Proof.
  intros Hadmin consumed quota Hq Hsize r.
  assert (Hearly : check_storage_quota conf context declared consumed = None).
  { apply check_storage_quota_passes. right. right. apply Hsize. }
  assert (Hlate :
    check_storage_quota conf context (stream_length data) consumed =
      Some (StorageQuotaFull (stream_length data) consumed quota)).
  { apply check_storage_quota_fails; [done | ]. subst quota. lia. }
  subst r. unfold declared_size_accepted, set_data.
  fold consumed. rewrite Hearly. simpl. fold (stream_length data).
  rewrite Hlate. simpl. repeat split.
Qed.

Lemma set_data_understated_size_scenario :
  let st := fresh_state "id" in
  let conf := config_storage 10 in
  let data := replicate 11 "*" in
  let r := set_data conf FakeContext data (Some 9%Z) st in
  declared_size_accepted conf FakeContext 9 st = true
  ∧ image r.1 = FakeImage_set_data (image st) data
  ∧ size (image r.1) = Some (stream_length data)
  ∧ r.2 = Some (StorageQuotaFull (stream_length data) 0 10).
Proof.
  apply (set_data_understated_size (config_storage 10) FakeContext
           (replicate 11 "*") 9%Z (fresh_state "id"));
    [reflexivity | simpl; lia | cbv -[Z.le Z.lt]; lia].
Defined.

(** ** A failed check changes nothing (C5) *)










(** [TestImageTagQuotas.test_replace_too_many_image_tags] holds of the
    model. *)
Example replace_too_many_image_tags_scenario :
  test_replace_too_many_image_tags = true.
Proof. vm_compute. reflexivity. Qed.

(** [set_data] is no call on a guarded collection, and fails in two places.
    A declared size that exceeds the quota is refused before anything is
    written, and the state is left as it was. *)
Lemma set_data_refused_before_write conf context data declared st exc :
  check_storage_quota conf context declared
    (storage_usage context (db st) None) = Some exc →
  set_data conf context data (Some declared) st = (st, Some exc).
Proof. intros Hcheck. unfold set_data. by rewrite Hcheck. Qed.

(** A failure found once the stream is drained comes after the write: the
    image has its new size, and the backend was asked to delete what was
    written ([test_quota_exceeded_no_size]). *)
Example set_data_refused_after_write :
  let st := fresh_state "id" in
  let r := set_data (config_storage 10) FakeContext (replicate 11 "*") None st
  in
  r.2 = Some (StorageQuotaFull 11 0 10)
  ∧ size (image st) = None
  ∧ size (image r.1) = Some 11%Z
  ∧ backend_deleted st = []
  ∧ backend_deleted r.1 = ["file:///not/a/path"].
Proof. repeat split; vm_compute; reflexivity. Qed.

(** ** Count quotas (C6) *)



(** [TestQuotaImageTagsProxy.test_add_too_many_tags],
    [TestImageTagQuotas.test_add_too_many_image_tags],
    [test_add_unlimited_image_tags], [test_replace_too_many_image_tags] and
    [TestImageMemberQuotas.test_new_image_member_too_many_members]. *)
Example count_scenarios :
  let add conf tag st := tags_add sample_description conf tag st in
  (∃ exc, (add (config_tags 0) "bar" (fresh_state "id")).2 = Some exc
          ∧ str_contains "Attempted: 1, Maximum: 0" (str exc) = true)
  ∧ (∃ exc,
       (add (config_tags 1) "bar"
          (add (config_tags 1) "foo" (fresh_state "id")).1).2 = Some exc
       ∧ str_contains "Attempted: 2, Maximum: 1" (str exc) = true)
  ∧ (let r := add (config_tags (-1)) "foo" (fresh_state "id") in
     r.2 = None ∧ stdpp.base.size (tags (image r.1)) = 1%nat)
  ∧ (let r :=
       tags_replace sample_description (config_tags 0) ["foo"; "bar"]
         (fresh_state "id") in
     (∃ exc, r.2 = Some exc
             ∧ str_contains "Attempted: 2, Maximum: 0" (str exc) = true)
     ∧ stdpp.base.size (tags (image r.1)) = 0%nat)
  ∧ (∃ exc,
       (new_image_member sample_description (config_members 0) "fake_id"
          (fresh_state "id")).2 = Some exc).
Proof.
  cbv zeta. repeat apply conj; try (eexists; split); try (eexists);
    vm_compute; reflexivity.
Qed.

(** ** Locations weigh the image's size (C7) *)

Lemma usage_of_get_image (location_count : nat) (image_size : Z) :
  storage_usage FakeContext (db (_get_image location_count image_size)) None
    = (image_size * Z.of_nat location_count)%Z
  ∧ storage_usage FakeContext (db (_get_image location_count image_size))
      (Some "xyz") = 0%Z.
Proof.
  unfold storage_usage. simpl.
  rewrite length_fmap, length_seq. split; [lia | reflexivity].
Qed.

Lemma weight_in_get_image (location_count n : nat) (image_size : Z) :
  location_weight (image (_get_image location_count image_size)) n
    = (image_size * Z.of_nat n)%Z.
Proof. reflexivity. Qed.

(** C7.  With [user_storage_quota = S * N] and an image of size [S > 0]
    holding [N] locations (the image of [_get_image], owned by the non-admin
    [FakeContext]), adding a location by [append] or [insert], or at least one
    by [extend] or [+=], raises [StorageQuotaFull], and so does replacing the
    locations by more than [N]; replacing them by at most [N] locations
    succeeds and installs the new list. *)
Theorem each_location_weighs_the_image_size conf (S : Z) (N : nat) :
  (0 < S)%Z →
  user_storage_quota conf = (S * Z.of_nat N)%Z →
  let st := _get_image N S in
  let raises (r : outcome) := assertRaises is_StorageQuotaFull r = true in
  (∀ loc, raises (locations_append conf FakeContext loc st))
  ∧ (∀ index loc, raises (locations_insert conf FakeContext index loc st))
  ∧ (∀ locs, locs ≠ [] →
       raises (locations_extend conf FakeContext locs st)
       ∧ raises (locations_iadd conf FakeContext locs st))
  ∧ (∀ value, (N < length value)%nat →
       raises (locations_replace conf FakeContext value st))
  ∧ (∀ value, (length value ≤ N)%nat →
       let r := locations_replace conf FakeContext value st in
       r.2 = None ∧ locations (image r.1) = value).
Proof.
  intros HS Hquota st raises.
  destruct (usage_of_get_image N S) as [Hall Hothers].
  assert (Hadd : ∀ added mutated, added ≠ [] →
    raises (guarded (check_added_locations conf FakeContext st added) st
              mutated)).
  { intros added mutated Hne. unfold raises, check_added_locations.
    subst st. rewrite Hall, weight_in_get_image.
    rewrite check_storage_quota_fails; [reflexivity | reflexivity |].
    rewrite Hquota. destruct added; [done |]. simpl length. nia. }
  repeat apply conj.
  - intros loc. by apply Hadd.
  - intros index loc. by apply Hadd.
  - intros locs Hne. split; by apply Hadd.
  - intros value Hlen.
    unfold raises, locations_replace, check_replaced_locations. subst st.
    change (image_id (image (_get_image N S))) with "xyz".
    rewrite Hothers, weight_in_get_image.
    rewrite check_storage_quota_fails; [reflexivity | reflexivity |].
    rewrite Hquota. nia.
  - intros value Hlen.
    unfold locations_replace, check_replaced_locations. subst st.
    change (image_id (image (_get_image N S))) with "xyz".
    rewrite Hothers, weight_in_get_image.
    rewrite (proj2 (check_storage_quota_passes _ _ _ _));
      [split; reflexivity |].
    right. right. rewrite Hquota. nia.
Qed.

(** [test_exceed_append_location], [test_exceed_extend_location],
    [test_iadd_location_exceed], [test_set_location_exceed] and
    [test_set_location_under], with an image size of 10. *)
Lemma each_location_weighs_the_image_size_scenario :
  let conf := config_storage 20 in
  let st := _get_image 2 10 in
  let raises (r : outcome) := assertRaises is_StorageQuotaFull r = true in
  (∀ loc, raises (locations_append conf FakeContext loc st))
  ∧ (∀ index loc, raises (locations_insert conf FakeContext index loc st))
  ∧ (∀ locs, locs ≠ [] →
       raises (locations_extend conf FakeContext locs st)
       ∧ raises (locations_iadd conf FakeContext locs st))
  ∧ (∀ value, (2 < length value)%nat →
       raises (locations_replace conf FakeContext value st))
  ∧ (∀ value, (length value ≤ 2)%nat →
       let r := locations_replace conf FakeContext value st in
       r.2 = None ∧ locations (image r.1) = value).
Proof.
  apply (each_location_weighs_the_image_size (config_storage 20) 10 2);
    [lia | reflexivity].
Defined.

Example location_scenarios :
  let loc := Location "file:///a/path" [] in
  let loc2 := Location "file:///a/path2" [] in
  let raises (r : outcome) := assertRaises is_StorageQuotaFull r in
  raises (locations_append (config_storage 20) FakeContext loc
            (_get_image 2 10)) = true
  ∧ raises (locations_insert (config_storage 20) FakeContext 0 loc
              (_get_image 2 10)) = true
  ∧ raises (locations_extend (config_storage 20) FakeContext [loc]
              (_get_image 2 10)) = true
  ∧ raises (locations_iadd (config_storage 10) FakeContext [loc]
              (_get_image 1 10)) = true
  ∧ raises (locations_replace (config_storage 10) FakeContext [loc; loc2]
              (_get_image 1 10)) = true
  ∧ locations_replace (config_storage 10) FakeContext [loc] (_get_image 1 10)
    = (with_image (_get_image 1 10)
         (with_locations (image (_get_image 1 10)) [loc]), None).
Proof. repeat split. Qed.

End QuotaFacts.

(** * More facts about the notifier *)

(** ** [Notifier.__init__] *)

Lemma strategy_alias (s : string) :
  _STRATEGY_ALIASES !! s =
    if decide (s = "logging") then Some "log"
    else if decide (s = "rabbit") then Some "messaging"
    else if decide (s = "qpid") then Some "messaging"
    else if decide (s = "noop") then Some "noop"
    else if decide (s = "default") then Some "noop"
    else None.
Proof.
  unfold _STRATEGY_ALIASES. simpl.
  repeat (rewrite lookup_insert; case_decide; subst;
          [repeat case_decide; congruence |]).
  rewrite lookup_empty. repeat case_decide; congruence.
Qed.

(** X1.  The transport url and the driver agree: [Notifier] asks for the url
    [<strategy>://] exactly when the effective strategy is [rabbit] or [qpid],
    and these are exactly the strategies whose driver is [messaging]. *)
Theorem Notifier_init_url_iff_messaging conf publisher strategy :
  let r := Notifier_init conf publisher strategy in
  let s := effective_strategy conf strategy in
  (s ∈ ["rabbit"; "qpid"]
   ∧ transport_url r = Some (s +:+ "://")
   ∧ driver r = Some "messaging")
  ∨ ((s ∉ ["rabbit"; "qpid"])
     ∧ transport_url r = None
     ∧ driver r ≠ Some "messaging").
Proof.
  intros r s. subst r. unfold Notifier_init. fold s. simpl.
  rewrite strategy_alias.
  case_bool_decide as Hs.
  - left. split; [done |]. split; [done |].
    rewrite !elem_of_cons, elem_of_nil in Hs.
    destruct Hs as [-> | [-> | []]]; reflexivity.
  - right. split; [done |]. split; [done |].
    rewrite !elem_of_cons, elem_of_nil in Hs.
    repeat case_decide; try congruence; tauto.
Qed.

(** X2.  A strategy name that is no key of the alias table is not refused: the
    notifier is built without a driver, and that happens for no other
    name. *)
Theorem Notifier_init_unknown_strategy conf publisher strategy :
  driver (Notifier_init conf publisher strategy) = None
  ↔ (effective_strategy conf strategy
       ∉ ["logging"; "rabbit"; "qpid"; "noop"; "default"]).
Proof.
  unfold Notifier_init. simpl. rewrite strategy_alias.
  rewrite !elem_of_cons, elem_of_nil.
  repeat case_decide; split; try congruence; try tauto.
Qed.

(** X3.  An explicit strategy decides the driver and the url but never the
    deprecation warning, which follows the configured strategy alone; an empty
    strategy counts as none. *)
Theorem Notifier_init_explicit_strategy conf publisher (s : string) :
  warned (Notifier_init conf publisher (Some s))
    = warned (Notifier_init conf publisher None)
  ∧ Notifier_init conf publisher (Some "") = Notifier_init conf publisher None
  ∧ (s = ""
     ∨ (driver (Notifier_init conf publisher (Some s))
          = driver (Notifier_init s publisher None)
        ∧ transport_url (Notifier_init conf publisher (Some s))
          = transport_url (Notifier_init s publisher None))).
Proof.
  split; [reflexivity |]. split; [reflexivity |].
  destruct (decide (s = "")) as [-> | Hs]; [by left | right].
  unfold Notifier_init, effective_strategy. simpl.
  by rewrite bool_decide_eq_false_2.
Qed.

Example Notifier_init_samples :
  Notifier_init "default" "image.localhost" None
    = mkNotifierSetup false None (Some "noop") "image.localhost"
  ∧ Notifier_init "default" "image.localhost" (Some "qpid")
    = mkNotifierSetup false (Some "qpid://") (Some "messaging")
        "image.localhost"
  ∧ Notifier_init "logging" "image.localhost" None
    = mkNotifierSetup true None (Some "log") "image.localhost"
  ∧ Notifier_init "default" "image.localhost" (Some "kafka")
    = mkNotifierSetup false None None "image.localhost".
Proof. repeat split. Qed.

(** ** [ImageProxy.get_data] *)

Lemma stream_length_cons (chunk : string) (chunks : list string) :
  Quota.stream_length (chunk :: chunks)
    = (Z.of_nat (String.length chunk) + Quota.stream_length chunks)%Z.
Proof.
  unfold Quota.stream_length. simpl.
  generalize (Z.of_nat (String.length chunk)). generalize 0%Z.
  induction chunks as [|c chunks IH]; intros a b; simpl; [lia |].
  rewrite (IH (a + b)%Z (Z.of_nat (String.length c))), (IH a b),
    (IH a (Z.of_nat (String.length c))).
  lia.
Qed.

(** Leaving the loop never yields. *)
Lemma get_data_loop_ends context sink wrapped (sent : Z) (sw : send_world) :
  match (get_data_loop context sink wrapped sent [] sw).2 with
  | Yield _ => False
  | _ => (get_data_loop context sink wrapped sent [] sw).1.1 = Finished
  end.
Proof.
  unfold get_data_loop, get_data_finish. by repeat case_match.
Qed.

(** Draining from the head of the loop: the consumer gets what the wrapped
    iterator still holds, and the generator ends as the loop ends on an
    exhausted iterator, with the bytes counted in total. *)
Lemma pull_from_loop context sink wrapped rest (sent : Z) g
    (sw : send_world) :
  get_data_next context sink wrapped g sw
    = get_data_loop context sink wrapped sent rest sw →
  pull context sink wrapped (S (length rest)) g sw =
    let '(g', sw', ended) :=
      get_data_loop context sink wrapped
        (sent + Quota.stream_length rest) [] sw in
    (rest, g', sw', Some ended).
Proof.
  revert sent g. induction rest as [|c rest IH]; intros sent g Hnext.
  - cbn [pull length]. rewrite Hnext.
    replace (sent + Quota.stream_length [])%Z with sent
      by (unfold Quota.stream_length; simpl; lia).
    pose proof (get_data_loop_ends context sink wrapped sent sw) as Hend.
    destruct (get_data_loop context sink wrapped sent [] sw) as [[? ?] []];
      [by destruct Hend | done | done].
  - change (pull context sink wrapped (S (length (c :: rest))) g sw)
      with (match get_data_next context sink wrapped g sw with
            | (g1, sw1, Yield chunk) =>
                let '(chunks, g2, sw2, ended) :=
                  pull context sink wrapped (S (length rest)) g1 sw1 in
                (chunk :: chunks, g2, sw2, ended)
            | (g1, sw1, ended) => ([], g1, sw1, Some ended)
            end).
    rewrite Hnext.
    change (get_data_loop context sink wrapped sent (c :: rest) sw)
      with (Suspended sent c rest, sw, Yield c).
    cbv beta iota.
    rewrite (IH (sent + Z.of_nat (String.length c))%Z); [| reflexivity].
    rewrite stream_length_cons, Z.add_assoc.
    by destruct (get_data_loop context sink wrapped _ [] sw) as [[? ?] ?].
Qed.

Lemma pull_all context sink wrapped (sw : send_world) :
  pull context sink wrapped (S (length wrapped.1)) Fresh sw =
    let '(g', sw', ended) :=
      get_data_loop context sink wrapped (Quota.stream_length wrapped.1) []
        sw in
    (wrapped.1, g', sw', Some ended).
Proof. by rewrite (pull_from_loop context sink wrapped wrapped.1 0). Qed.

Lemma pull_some context sink wrapped rest (sent : Z) g (sw : send_world)
    (n : nat) :
  get_data_next context sink wrapped g sw
    = get_data_loop context sink wrapped sent rest sw →
  (n ≤ length rest)%nat →
  ∃ g', pull context sink wrapped n g sw = (take n rest, g', sw, None).
Proof.
  revert rest sent g. induction n as [|n IH]; intros rest sent g Hnext Hn.
  - exists g. by rewrite take_0.
  - destruct rest as [|c rest]; [simpl in Hn; lia |].
    simpl. rewrite Hnext. simpl.
    destruct (IH rest (sent + Z.of_nat (String.length c))%Z
                (Suspended sent c rest)) as [g' Hg'];
      [reflexivity | simpl in Hn; lia |].
    exists g'. by rewrite Hg'.
Qed.

(** X4.  A consumer that drains [get_data()] gets exactly the chunks of the
    wrapped image, in order, and one [image.send] notification follows whose
    [bytes_sent] is their total length; its severity is info when that total
    equals the image's size and error otherwise (hence error whenever the size
    is not a number). *)
Theorem get_data_drained context sink chunks (sw : send_world) :
  let image := w_entity (sw_world sw) in
  let total := Quota.stream_length chunks in
  let sev := if py_int_eq total (size image) then Info else Error in
  let payload := PDict (_format_image_send image context total) in
  sink sev "image.send" payload = None →
  pull context sink (chunks, None) (S (length chunks)) Fresh sw =
    (chunks, Finished,
     mkSendWorld
       (World image (w_log (sw_world sw) ++ [Notified sev "image.send" payload]))
       (sw_logged sw),
     Some StopIteration)
  ∧ getitem "bytes_sent" payload = Some (PInt total).
Proof.
  intros image total sev payload Hsink. split; [| reflexivity].
  rewrite (pull_all context sink (chunks, None)). simpl.
  unfold get_data_finish. fold image total.
  subst sev payload. destruct (py_int_eq total (size image)); simpl in *;
    by rewrite Hsink.
Qed.

(** X5.  A consumer that stops after [n] chunks, even after the last one, without
    asking for more gets no [image.send] notification: the world is as it
    was. *)
Theorem get_data_stopped_early context sink wrapped (n : nat)
    (sw : send_world) :
  (n ≤ length wrapped.1)%nat →
  ∃ g, pull context sink wrapped n Fresh sw = (take n wrapped.1, g, sw, None).
Proof. intros Hn. by apply (pull_some context sink wrapped wrapped.1 0). Qed.

(** X6.  When the sink raises an [Exception] on [image.send], the download is not
    disturbed: the consumer still gets every chunk and a normal end, the
    failure is written to the log, and no notification is recorded. *)
Theorem get_data_send_failure_is_logged context sink chunks
    (sw : send_world) err :
  (∀ sev payload, sink sev "image.send" payload = Some err) →
  isinstance err Exception = true →
  pull context sink (chunks, None) (S (length chunks)) Fresh sw =
    (chunks, Finished,
     mkSendWorld (sw_world sw)
       (sw_logged sw
          ++ ["An error occurred during image.send notification: "
                +:+ exc_str err]),
     Some StopIteration).
Proof.
  intros Hsink Herr.
  rewrite (pull_all context sink (chunks, None)). simpl.
  unfold get_data_finish. by rewrite Hsink, Herr.
Qed.

(** X7.  When the wrapped iterator raises after some chunks, the consumer has got
    those chunks, the exception reaches it unchanged, and no [image.send]
    notification is sent. *)
Theorem get_data_wrapped_failure context sink chunks e (sw : send_world) :
  pull context sink (chunks, Some e) (S (length chunks)) Fresh sw =
    (chunks, Finished, sw, Some (Raised e)).
Proof. by rewrite (pull_all context sink (chunks, Some e)). Qed.

(** A sink that takes every event, and one that always raises [e]. *)
Example get_data_samples :
  let context := mkRequestContext (PStr "tenant1") (PStr "user1") in
  let sw := mkSendWorld (World sample_image []) [] in
  let accept (sev : severity) (t : string) (p : pyval) := @None pyexc in
  pull context accept (["01234"; "56789"], None) 3 Fresh sw
    = (["01234"; "56789"], Finished,
       mkSendWorld
         (World sample_image
            [Notified Info "image.send"
               (PDict
                  [("bytes_sent", PInt 10); ("image_id", PStr "xyz");
                   ("owner_id", PStr "someone");
                   ("receiver_tenant_id", PStr "tenant1");
                   ("receiver_user_id", PStr "user1")])])
         [],
       Some StopIteration)
  ∧ pull context accept (["01234"; "56789"], None) 2 Fresh sw
    = (["01234"; "56789"], Suspended 5 "56789" [], sw, None).
Proof. split; reflexivity. Qed.

Lemma get_data_drained_sample :
  pull sample_context accepting_sink (["01234"; "5678"], None) 3 Fresh
    sample_send_world =
    (["01234"; "5678"], Finished,
     mkSendWorld
       (World sample_image
          [Notified Error "image.send"
             (PDict (_format_image_send sample_image sample_context 9))])
       [],
     Some StopIteration)
  ∧ getitem "bytes_sent"
      (PDict (_format_image_send sample_image sample_context 9))
    = Some (PInt 9).
Proof.
  apply (get_data_drained sample_context accepting_sink ["01234"; "5678"]
           sample_send_world).
  reflexivity.
Defined.

Lemma get_data_stopped_early_sample :
  ∃ g,
    pull sample_context accepting_sink (["01234"; "5678"], None) 2 Fresh
      sample_send_world
    = (["01234"; "5678"], g, sample_send_world, None).
Proof.
  apply (get_data_stopped_early sample_context accepting_sink
           (["01234"; "5678"], None) 2 sample_send_world).
  simpl. lia.
Defined.

Lemma get_data_send_failure_is_logged_sample :
  pull sample_context (failing_sink connection_lost)
    (["01234"; "5678"], None) 3 Fresh sample_send_world =
    (["01234"; "5678"], Finished,
     mkSendWorld (World sample_image [])
       ["An error occurred during image.send notification: connection lost"],
     Some StopIteration).
Proof.
  apply (get_data_send_failure_is_logged sample_context
           (failing_sink connection_lost) ["01234"; "5678"]
           sample_send_world connection_lost);
    reflexivity.
Defined.

(** ** More about [ImageProxy.set_data] *)

(** X8.  An error of the wrapped [set_data] that no [except] clause matches (one
    that is no [Exception], such as [KeyboardInterrupt]) leaves the proxy
    unchanged and without any [image.upload] notification: only
    [image.prepare] was sent. *)
Theorem set_data_uncaught_error_is_not_notified isotime base data size
    (w : world Image) img' e :
  base (Image_set_data data size) (w_entity w) = (img', inl e) →
  handler_class e = None →
  let r := ImageProxy_set_data isotime base data size w in
  r.2 = inl e
  ∧ since w r.1 =
      [Notified Info "image.prepare"
         (PDict (format_image_notification isotime (w_entity w)));
       Delegated (Image_set_data data size) (image_id (w_entity w))]
  ∧ notifications "image.upload" (since w r.1) = 0%nat.
Proof.
  intros Hbase Hnone r. subst r.
  unfold handler_class in Hnone. simpl in Hnone.
  unfold ImageProxy_set_data, try_except_else, super_call, self_entity at 1,
    Notifier_info, Notifier_send, mbind, M_bind. simpl.
  rewrite Hbase. unfold set_data_handler. run_proxy.
  destruct (isinstance e StorageFull); [discriminate |].
  destruct (isinstance e StorageWriteDenied); [discriminate |].
  destruct (isinstance e ValueError); [discriminate |].
  destruct (isinstance e Duplicate); [discriminate |].
  destruct (isinstance e Forbidden); [discriminate |].
  destruct (isinstance e NotFound); [discriminate |].
  destruct (isinstance e HTTPError); [discriminate |].
  destruct (isinstance e Exception); [discriminate |].
  simpl. rewrite <- app_assoc. simpl. rewrite since_app. repeat split.
Qed.

Lemma set_data_uncaught_error_is_not_notified_sample :
  let w := World sample_image [] in
  let r :=
    ImageProxy_set_data sample_isotime (base_raising keyboard_interrupt)
      ["*"] None w in
  r.2 = inl keyboard_interrupt
  ∧ since w r.1 =
      [Notified Info "image.prepare"
         (PDict (format_image_notification sample_isotime sample_image));
       Delegated (Image_set_data ["*"] None) "xyz"]
  ∧ notifications "image.upload" (since w r.1) = 0%nat.
Proof.
  apply (set_data_uncaught_error_is_not_notified sample_isotime
           (base_raising keyboard_interrupt) ["*"] None
           (World sample_image []) sample_image keyboard_interrupt);
    reflexivity.
Defined.

(** X9.  What the raised HTTP error explains.  For a wrapped [StorageFull],
    [StorageWriteDenied], [Duplicate] or [Forbidden] the explanation of the
    raised error is the very message sent in the [image.upload] error
    notification; for a wrapped [ValueError] or [NotFound] it is the text of
    the wrapped error alone, and the formatted message is only in the
    notification. *)
Theorem set_data_explanation isotime base data size (w : world Image) img' e :
  base (Image_set_data data size) (w_entity w) = (img', inl e) →
  isinstance e Exception = true →
  let r := ImageProxy_set_data isotime base data size w in
  ∃ e' msg,
    r.2 = inl e'
    ∧ last (w_log r.1) = Some (Notified Error "image.upload" (PStr msg))
    ∧ match handler_class e with
      | Some (StorageFull | StorageWriteDenied | Duplicate | Forbidden) =>
          exc_str e' = msg
      | Some (ValueError | NotFound) => exc_str e' = exc_str e
      | _ => e' = e
      end.
Proof.
  intros Hbase He r. subst r.
  rewrite (set_data_failure_run _ _ _ _ _ _ _ Hbase He). simpl.
  eexists _, _. split; [reflexivity |]. split.
  { rewrite last_app. reflexivity. }
  unfold raised_error. by repeat case_match.
Qed.

Lemma set_data_explanation_sample :
  let r :=
    ImageProxy_set_data sample_isotime (base_raising bad_checksum) ["*"] None
      (World sample_image []) in
  ∃ e' msg,
    r.2 = inl e'
    ∧ last (w_log r.1) = Some (Notified Error "image.upload" (PStr msg))
    ∧ match handler_class bad_checksum with
      | Some (StorageFull | StorageWriteDenied | Duplicate | Forbidden) =>
          exc_str e' = msg
      | Some (ValueError | NotFound) => exc_str e' = exc_str bad_checksum
      | _ => e' = bad_checksum
      end.
Proof.
  apply (set_data_explanation sample_isotime (base_raising bad_checksum)
           ["*"] None (World sample_image []) sample_image bad_checksum);
    reflexivity.
Defined.

Example set_data_explanation_texts :
  let r :=
    ImageProxy_set_data sample_isotime (base_raising bad_checksum) ["*"] None
      (World sample_image []) in
  r.2 = inl (webob_exc HTTPBadRequest "checksum mismatch")
  ∧ last (w_log r.1)
    = Some
        (Notified Error "image.upload"
           (PStr "Cannot save data for image xyz: checksum mismatch")).
Proof. split; reflexivity. Qed.

(** ** What the notifications describe *)

(** X10.  A task notification describes the task as it was before the delegated
    call, whatever that call does to the task: [task.success] and
    [task.failure] carry the status from before [succeed] and [fail] were
    applied.  The wrapped object's changes are in the task afterwards. *)
Theorem task_notifications_describe_the_task_before isotime base
    (w : world Task) :
  let before := PDict (format_task_notification isotime (w_entity w)) in
  let snapshot (run : M Task pyval) (m : method) :=
    notified_payloads (since w (run w).1) = [before]
    ∧ w_entity (run w).1 = (base m (w_entity w)).1 in
  snapshot (TaskRepoProxy_add isotime base) Repo_add
  ∧ snapshot (TaskProxy_begin_processing isotime base) Task_begin_processing
  ∧ (∀ executor,
       snapshot (TaskProxy_run isotime base executor) (Task_run executor))
  ∧ (∀ result,
       snapshot (TaskProxy_succeed isotime base result)
         (Task_succeed result))
  ∧ (∀ message,
       snapshot (TaskProxy_fail isotime base message) (Task_fail message))
  ∧ notified_payloads (since w (TaskRepoProxy_remove isotime base w).1)
    = [PDict
         (mark_deleted isotime
            (format_task_notification isotime (w_entity w)))].
Proof.
  cbv beta zeta. repeat apply conj; intros; repeat apply conj;
    first [ rewrite TaskRepoProxy_remove_run
          | unfold TaskRepoProxy_add, TaskProxy_begin_processing,
              TaskProxy_run, TaskProxy_succeed, TaskProxy_fail;
            rewrite notify_then_call ];
    match goal with
    | |- context [base ?m (w_entity w)] =>
        destruct (base m (w_entity w)) as [e' r]
    end; simpl; rewrite ?since_app; reflexivity.
Qed.

(** X11.  An image repository notification describes the image as the repository
    call left it: a change made by the wrapped [add], [save] or [remove] is in
    the payload. *)
Theorem image_notifications_describe_the_image_after isotime base
    (w : world Image) :
  let described (run : M Image ()) (m : method) (wrap : pydict → pydict) :=
    match base m (w_entity w) with
    | (image', inr _) =>
        notified_payloads (since w (run w).1)
          = [PDict (wrap (format_image_notification isotime image'))]
    | (_, inl _) => notified_payloads (since w (run w).1) = []
    end in
  described (ImageRepoProxy_add isotime base) Repo_add id
  ∧ described (ImageRepoProxy_save isotime base) Repo_save id
  ∧ described (ImageRepoProxy_remove isotime base) Repo_remove
      (mark_deleted isotime).
Proof.
  cbv beta zeta. repeat apply conj;
    first [ rewrite ImageRepoProxy_add_run
          | rewrite ImageRepoProxy_save_run
          | rewrite ImageRepoProxy_remove_run ];
    match goal with
    | |- context [base ?m (w_entity w)] =>
        destruct (base m (w_entity w)) as [e' [exn|v]]
    end; simpl; rewrite since_app; reflexivity.
Qed.

Example task_success_reports_the_old_status :
  let r :=
    TaskProxy_succeed sample_isotime succeeding_task (PStr "done")
      (World sample_task []) in
  task_status (w_entity r.1) = PStr "success"
  ∧ (getitem "status" <$> notified_payloads (w_log r.1))
    = [Some (PStr "pending")].
Proof. split; reflexivity. Qed.

(** X12.  The payload of a delete event is the payload any other event of the
    entity would carry, with the same keys, except for [deleted] and
    [deleted_at]. *)
Theorem delete_payload_differs_in_deletion_fields_only isotime (k : string) :
  k ≠ "deleted" → k ≠ "deleted_at" →
  (∀ image,
     let payload := format_image_notification isotime image in
     dict_get k (mark_deleted isotime payload) = dict_get k payload
     ∧ dict_keys (mark_deleted isotime payload) = dict_keys payload)
  ∧ (∀ task,
       let payload := format_task_notification isotime task in
       dict_get k (mark_deleted isotime payload) = dict_get k payload
       ∧ dict_keys (mark_deleted isotime payload) = dict_keys payload).
Proof.
  intros Hd Hda. split; intros entity; cbv zeta; (split; [| reflexivity]);
    unfold mark_deleted, format_image_notification,
      format_task_notification; simpl;
    repeat case_decide; congruence.
Qed.

Lemma delete_payload_differs_in_deletion_fields_only_sample :
  (∀ image,
     let payload := format_image_notification sample_isotime image in
     dict_get "status" (mark_deleted sample_isotime payload)
       = dict_get "status" payload
     ∧ dict_keys (mark_deleted sample_isotime payload) = dict_keys payload)
  ∧ (∀ task,
       let payload := format_task_notification sample_isotime task in
       dict_get "status" (mark_deleted sample_isotime payload)
         = dict_get "status" payload
       ∧ dict_keys (mark_deleted sample_isotime payload) = dict_keys payload).
Proof.
  apply (delete_payload_differs_in_deletion_fields_only sample_isotime
           "status"); discriminate.
Defined.

(** ** [FakeImage.set_data] of the test module *)

Lemma stream_length_app (data data' : list string) :
  Quota.stream_length (data ++ data')
    = (Quota.stream_length data + Quota.stream_length data')%Z.
Proof.
  induction data as [|chunk data IH]; [unfold Quota.stream_length; simpl; lia |].
  cbn [app]. rewrite !stream_length_cons, IH. lia.
Qed.

(** X13.  [FakeImage.set_data] sets the size to the total length of the chunks it is
    given, whatever the size was before, and leaves the id, locations and tags
    alone.  The total is never negative, adds up over a stream given in two
    parts, and is [n] for a string of [n] characters iterated character by
    character. *)
Theorem FakeImage_set_data_size (self : Quota.FakeImage)
    (data data' : list string) (n : nat) :
  let after := Quota.FakeImage_set_data self data in
  Quota.size after = Some (Quota.stream_length data)
  ∧ (0 ≤ Quota.stream_length data)%Z
  ∧ Quota.FakeImage_set_data after data' = Quota.FakeImage_set_data self data'
  ∧ Quota.size (Quota.FakeImage_set_data self (data ++ data'))
    = Some (Quota.stream_length data + Quota.stream_length data')%Z
  ∧ Quota.size (Quota.FakeImage_set_data self (replicate n "*"))
    = Some (Z.of_nat n)
  ∧ (Quota.image_id after, Quota.locations after, Quota.tags after)
    = (Quota.image_id self, Quota.locations self, Quota.tags self).
Proof.
  cbv zeta. repeat apply conj; try reflexivity.
  - induction data as [|chunk data IH];
      [unfold Quota.stream_length; simpl; lia |].
    rewrite stream_length_cons. lia.
  - change (Quota.size (Quota.FakeImage_set_data self (data ++ data')))
      with (Some (Quota.stream_length (data ++ data'))).
    by rewrite stream_length_app.
  - change (Quota.size (Quota.FakeImage_set_data self (replicate n "*")))
      with (Some (Quota.stream_length (replicate n "*"))).
    f_equal. induction n as [|n IH]; [reflexivity |].
    cbn [replicate]. rewrite stream_length_cons, IH.
    change (String.length "*") with 1%nat. lia.
Qed.

(** * Facts about [glance/cmd/manage.py] *)

Module ManageFacts.
Import Manage.

(** ** The [args] decorator *)

(** X14.  Stacked [@args] decorators leave their entries on the function in the
    order they are written, in front of what the function had. *)
Theorem decorate_keeps_written_order (decorators : list arg_spec) (f : func) :
  getattr_args (decorate decorators f) = decorators ++ getattr_args f
  ∧ fn_name (decorate decorators f) = fn_name f.
Proof.
  induction decorators as [|[a kwargs] decorators [IHargs IHname]];
    [done |].
  split; [| exact IHname].
  simpl. unfold getattr_args at 1. simpl. by rewrite IHargs.
Qed.

(** ** [methods_of] *)

Lemma methods_of_filter (obj : object) :
  methods_of obj
    = List.filter (λ i, callable i.2 && negb (Quota.startswith "_" i.1)) obj.
Proof.
  unfold methods_of.
  assert (H : ∀ acc,
    foldl
      (λ result i,
        if callable i.2 && negb (Quota.startswith "_" i.1)
        then result ++ [i] else result) acc obj
    = acc ++ List.filter
               (λ i, callable i.2 && negb (Quota.startswith "_" i.1)) obj).
  { induction obj as [|i obj IH]; intros acc; cbn [foldl List.filter].
    - by rewrite app_nil_r.
    - rewrite IH. destruct (callable i.2 && negb (Quota.startswith "_" i.1));
        [by rewrite <- app_assoc | done]. }
  apply (H []).
Qed.

(** X15.  [methods_of] returns exactly the attributes that are callable and whose
    name does not start with an underscore, in the order of [dir]; an object
    with none gives the empty list. *)
Theorem methods_of_public_callables (obj : object) :
  (∀ i, i ∈ methods_of obj ↔
     i ∈ obj ∧ callable i.2 = true ∧ Quota.startswith "_" i.1 = false)
  ∧ sublist (methods_of obj) obj.
Proof.
  rewrite methods_of_filter. split.
  - intros i. rewrite !list_elem_of_In, List.filter_In.
    rewrite andb_true_iff, negb_true_iff. tauto.
  - induction obj as [|i obj IH]; cbn [List.filter]; [constructor |].
    destruct (callable i.2 && negb (Quota.startswith "_" i.1));
      by constructor.
Qed.

(** ** The [dest] of an option *)

Lemma startswith_app (prefix rest : string) :
  Quota.startswith prefix (prefix +:+ rest) = true.
Proof.
  induction prefix as [|a prefix IH]; simpl; [reflexivity |].
  by rewrite Ascii.eqb_refl.
Qed.

Lemma str_drop_app (prefix rest : string) :
  str_drop (String.length prefix) (prefix +:+ rest) = rest.
Proof. induction prefix as [|a prefix IH]; simpl; [by destruct rest | done]. Qed.

Lemma startswith_split (prefix s : string) :
  Quota.startswith prefix s = true →
  prefix +:+ str_drop (String.length prefix) s = s.
Proof.
  revert s. induction prefix as [|a prefix IH]; intros s Hs.
  - by destruct s.
  - destruct s as [|b s]; simpl in Hs; [discriminate |].
    apply andb_true_iff in Hs as [Hab Hs].
    apply Ascii.eqb_eq in Hab as ->. simpl.
    rewrite <- (IH s Hs) at 2. reflexivity.
Qed.

Lemma normalise_dest_facts (first : string) (rest : list string)
    (kwargs : gmap string string) :
  (∃ kwargs' action_kwarg,
     normalise_dest (first :: rest, kwargs)
       = Some ((first :: rest, kwargs'), action_kwarg)
     ∧ kwargs' !! "dest" = Some ("action_kwarg_" +:+ action_kwarg)
     ∧ (∀ k, k ≠ "dest" → kwargs' !! k = kwargs !! k)
     ∧ normalise_dest (first :: rest, kwargs')
       = Some ((first :: rest, kwargs'), action_kwarg)
     ∧ (let dest := default (str_drop 2 first) (kwargs !! "dest") in
        if Quota.startswith "action_kwarg_" dest
        then "action_kwarg_" +:+ action_kwarg = dest
        else action_kwarg = dest))
  ∧ normalise_dest ([], kwargs) = None.
Proof.
  split; [| reflexivity].
  set (kw1 :=
    match kwargs !! "dest" with
    | Some _ => kwargs
    | None => <["dest" := str_drop 2 first]> kwargs
    end).
  set (dest := default (str_drop 2 first) (kwargs !! "dest")).
  assert (Hdest : kw1 !! "dest" = Some dest).
  { subst kw1 dest. destruct (kwargs !! "dest") eqn:Hk; simpl;
      [done | by rewrite lookup_insert_eq]. }
  assert (Hother : ∀ k, k ≠ "dest" → kw1 !! k = kwargs !! k).
  { intros k Hk. subst kw1. destruct (kwargs !! "dest");
      [done | by rewrite lookup_insert_ne]. }
  assert (Hagain : ∀ kw name,
    kw !! "dest" = Some ("action_kwarg_" +:+ name) →
    normalise_dest (first :: rest, kw) = Some ((first :: rest, kw), name)).
  { intros kw name Hkw. unfold normalise_dest.
    cbn [fst snd]. rewrite !Hkw. cbn [default from_option id].
    rewrite startswith_app. by rewrite str_drop_app. }
  unfold normalise_dest. cbn [fst snd]. fold kw1. rewrite !Hdest.
  cbn [default from_option id].
  destruct (Quota.startswith "action_kwarg_" dest) eqn:Hpre.
  - pose proof (startswith_split _ _ Hpre) as Hsplit.
    eexists _, _. split; [reflexivity |].
    rewrite Hsplit. repeat split; try done.
    apply Hagain. by rewrite Hsplit.
  - eexists _, _. split; [reflexivity |].
    split; [by rewrite lookup_insert_eq |].
    split; [| split; [| reflexivity]].
    + intros k Hk. rewrite lookup_insert_ne by done. by apply Hother.
    + apply Hagain. by rewrite lookup_insert_eq.
Qed.

(** X16.  What the loop of [add_command_parsers] does to one [@args] entry with a
    positional name: afterwards its [dest] is [action_kwarg_] followed by the
    name recorded in [action_kwargs], its other options are untouched, and
    doing it again changes nothing and records the same name.  A [dest] that
    is missing defaults to the first positional name without its two leading
    characters.  An entry without a positional name raises. *)
Theorem normalise_dest_prefixes (first : string) (rest : list string)
    (kwargs : gmap string string) :
  (∃ kwargs' action_kwarg,
     normalise_dest (first :: rest, kwargs)
       = Some ((first :: rest, kwargs'), action_kwarg)
     ∧ kwargs' !! "dest" = Some ("action_kwarg_" +:+ action_kwarg)
     ∧ (∀ k, k ≠ "dest" → kwargs' !! k = kwargs !! k)
     ∧ normalise_dest (first :: rest, kwargs')
       = Some ((first :: rest, kwargs'), action_kwarg)
     ∧ (let dest := default (str_drop 2 first) (kwargs !! "dest") in
        if Quota.startswith "action_kwarg_" dest
        then "action_kwarg_" +:+ action_kwarg = dest
        else action_kwarg = dest))
  ∧ normalise_dest ([], kwargs) = None.
Proof. apply normalise_dest_facts. Qed.

Example normalise_dest_samples :
  normalise_dest version_option
    = Some
        ((["--version"],
          {["metavar" := "<version>"; "help" := "Database version";
            "dest" := "action_kwarg_version"]}),
         "version")
  ∧ normalise_dest (["-f"; "--force"], {["dest" := "force"]})
    = Some ((["-f"; "--force"], {["dest" := "action_kwarg_force"]}), "force").
Proof. split; vm_compute; reflexivity. Qed.

(** ** [add_command_parsers] *)

Lemma normalise_dests_again specs specs' action_kwargs :
  normalise_dests specs = Some (specs', action_kwargs) →
  normalise_dests specs' = Some (specs', action_kwargs).
Proof.
  revert specs' action_kwargs.
  induction specs as [|[names kwargs] specs IH]; intros specs' kws; simpl.
  - by intros [= <- <-].
  - destruct names as [|first rest]; [done |].
    destruct (normalise_dest_facts first rest kwargs)
      as [(kwargs' & kw & Hfirst & _ & _ & Hagain & _) _].
    rewrite Hfirst.
    destruct (normalise_dests specs) as [[rest' kws']|]; [| done].
    intros [= <- <-]. simpl. rewrite Hagain. by rewrite (IH _ _ eq_refl).
Qed.

Lemma add_action_parser_again action action_fn action_fn' calls :
  add_action_parser action action_fn = Some (action_fn', calls) →
  add_action_parser action action_fn' = Some (action_fn', calls)
  ∧ callable action_fn' = callable action_fn.
Proof.
  unfold add_action_parser, getattr_args.
  destruct action_fn as [[name [specs|]]|v]; simpl.
  - destruct (normalise_dests specs) as [[specs' kws]|] eqn:Hn; [| done].
    intros [= <- <-]. simpl.
    by rewrite (normalise_dests_again _ _ _ Hn).
  - by intros [= <- <-].
  - by intros [= <- <-].
Qed.

Lemma add_action_parsers_again methods methods' calls :
  add_action_parsers methods = Some (methods', calls) →
  add_action_parsers methods' = Some (methods', calls)
  ∧ (Forall (λ i, callable i.2 && negb (Quota.startswith "_" i.1) = true)
       methods →
     Forall (λ i, callable i.2 && negb (Quota.startswith "_" i.1) = true)
       methods')
  ∧ length methods' = length methods.
Proof.
  revert methods' calls.
  induction methods as [|[action action_fn] methods IH];
    intros methods' calls; simpl.
  - by intros [= <- <-].
  - destruct (add_action_parser action action_fn) as [[fn' c]|] eqn:Hone;
      [| done].
    destruct (add_action_parsers methods) as [[rest c']|]; [| done].
    intros [= <- <-].
    destruct (add_action_parser_again _ _ _ _ Hone) as [Hagain Hcall].
    destruct (IH _ _ eq_refl) as (IHagain & IHall & IHlen).
    simpl. rewrite Hagain, IHagain. split; [done |]. split.
    + intros Hall. apply Forall_cons in Hall as [Hi Hall].
      apply Forall_cons. split; [| by apply IHall].
      simpl in *. by rewrite Hcall.
    + by rewrite IHlen.
Qed.

Lemma methods_of_public (methods : list (string * attr)) :
  Forall (λ i, callable i.2 && negb (Quota.startswith "_" i.1) = true)
    methods →
  methods_of methods = methods.
Proof.
  rewrite methods_of_filter.
  induction 1 as [|i methods Hi _ IH]; cbn [List.filter]; [done |].
  by rewrite Hi, IH.
Qed.

Lemma methods_of_all_public (obj : object) :
  Forall (λ i, callable i.2 && negb (Quota.startswith "_" i.1) = true)
    (methods_of obj).
Proof.
  rewrite methods_of_filter. apply Forall_forall. intros i Hi.
  apply list_elem_of_In, List.filter_In in Hi. apply Hi.
Qed.

(** X17.  Registering the commands twice makes the same calls on the parsers both
    times.  The first pass rewrites the [dest] of every option in place; the
    second pass finds the rewritten options, recognises the [action_kwarg_]
    prefix and neither prefixes them again nor changes [action_kwargs]. *)
Theorem add_command_parsers_again (command_object : object) methods calls :
  add_command_parsers command_object = Some (methods, calls) →
  add_command_parsers methods = Some (methods, calls).
Proof.
  unfold add_command_parsers.
  destruct (add_action_parsers (methods_of command_object))
    as [[ms cs]|] eqn:Hfirst; [| done].
  intros [= <- <-].
  destruct (add_action_parsers_again _ _ _ Hfirst) as (Hagain & Hall & _).
  rewrite (methods_of_public ms) by (apply Hall, methods_of_all_public).
  by rewrite Hagain.
Qed.

Lemma count_add_parser_app on name (calls calls' : list parser_call) :
  count_add_parser on name (calls ++ calls')
    = (count_add_parser on name calls + count_add_parser on name calls')%nat.
Proof.
  unfold count_add_parser. by rewrite List.filter_app, length_app.
Qed.

Lemma count_add_parser_cons on name c (calls : list parser_call) :
  count_add_parser on name (c :: calls)
    = ((if is_add_parser on name c then 1 else 0)
       + count_add_parser on name calls)%nat.
Proof.
  unfold count_add_parser. cbn [List.filter].
  by destruct (is_add_parser on name c).
Qed.

Lemma count_add_parser_arguments on name p (specs : list arg_spec) :
  count_add_parser on name
    ((λ spec, add_argument p spec.1 spec.2) <$> specs) = 0%nat.
Proof. by induction specs. Qed.

Lemma count_legacy_in_action name action action_fn action_fn' calls :
  name ∈ ["db_version"; "db_upgrade"; "db_downgrade"; "db_version_control";
          "db_sync"] →
  add_action_parser action action_fn = Some (action_fn', calls) →
  count_add_parser top name calls = 1%nat.
Proof.
  intros Hname. unfold add_action_parser.
  destruct (normalise_dests _) as [[specs' kws]|]; [| done].
  intros [= _ <-].
  rewrite count_add_parser_cons, count_add_parser_app,
    count_add_parser_arguments.
  rewrite !elem_of_cons, elem_of_nil in Hname.
  destruct Hname as [-> | [-> | [-> | [-> | [-> | []]]]]]; reflexivity.
Qed.

(** X18.  [add_command_parsers] adds each legacy parser ([db_version],
    [db_upgrade], [db_downgrade], [db_version_control], [db_sync]) to the
    top-level subparsers once for every method of the command object, not
    once: the call to [add_legacy_command_parsers] stands inside the loop over
    the methods.  An object without public methods gets no legacy parser. *)
Theorem legacy_parsers_added_per_method (command_object : object) methods
    calls (name : string) :
  name ∈ ["db_version"; "db_upgrade"; "db_downgrade"; "db_version_control";
          "db_sync"] →
  add_command_parsers command_object = Some (methods, calls) →
  count_add_parser top name calls = length (methods_of command_object)
  ∧ count_add_parser top "db" calls = 1%nat.
Proof.
  intros Hname. unfold add_command_parsers.
  destruct (add_action_parsers (methods_of command_object))
    as [[ms cs]|] eqn:Hloop; [| done].
  intros [= <- <-].
  assert (Hcount : ∀ ms0 ms1 cs1,
    add_action_parsers ms0 = Some (ms1, cs1) →
    count_add_parser top name cs1 = length ms0
    ∧ count_add_parser top "db" cs1 = 0%nat).
  { induction ms0 as [|[action fn] ms0 IH]; intros ms1 cs1; simpl.
    - by intros [= <- <-].
    - destruct (add_action_parser action fn) as [[fn' c]|] eqn:Hone; [| done].
      destruct (add_action_parsers ms0) as [[rest c']|]; [| done].
      intros [= <- <-]. destruct (IH _ _ eq_refl) as [IHn IHdb].
      rewrite !count_add_parser_app, IHn, IHdb.
      rewrite (count_legacy_in_action name _ _ _ _ Hname Hone).
      split; [done |].
      revert Hone. unfold add_action_parser.
      destruct (normalise_dests _) as [[specs' kws]|]; [| done].
      intros [= _ <-].
      by rewrite count_add_parser_cons, count_add_parser_app,
        count_add_parser_arguments. }
  destruct (Hcount _ _ _ Hloop) as [Hn Hdb].
  rewrite !count_add_parser_cons, Hn, Hdb.
  split; [| reflexivity].
  rewrite !elem_of_cons, elem_of_nil in Hname.
  destruct Hname as [-> | [-> | [-> | [-> | [-> | []]]]]]; reflexivity.
Qed.

Lemma add_command_parsers_again_DbCommands :
  add_command_parsers DbCommands_registered.1
    = Some (DbCommands_registered.1, DbCommands_registered.2).
Proof.
  apply (add_command_parsers_again DbCommands DbCommands_registered.1
           DbCommands_registered.2).
  vm_compute. reflexivity.
Defined.

Lemma legacy_parsers_added_per_method_DbCommands :
  count_add_parser top "db_sync" DbCommands_registered.2
    = length (methods_of DbCommands)
  ∧ count_add_parser top "db" DbCommands_registered.2 = 1%nat.
Proof.
  apply (legacy_parsers_added_per_method DbCommands DbCommands_registered.1
           DbCommands_registered.2 "db_sync").
  - rewrite !elem_of_cons. tauto.
  - vm_compute. reflexivity.
Defined.

Example DbCommands_parsers :
  (methods_of DbCommands).*1
    = ["downgrade"; "sync"; "upgrade"; "version"; "version_control"]
  ∧ count_add_parser top "db_sync" DbCommands_registered.2 = 5%nat
  ∧ action_kwargs_of "sync" DbCommands_registered.2
    = [["version"; "current_version"]]
  ∧ action_kwargs_of "version" DbCommands_registered.2 = [[]].
Proof. repeat split; vm_compute; reflexivity. Qed.

End ManageFacts.
